(** * Item tree, memberships and bulk routes of the graasp backend

    A shallow embedding of the move task ([src/services/items/tasks/move-item-task.ts]),
    of the item route schemas ([src/services/items/fluent-schema.ts]), of the
    password routes ([src/unnamed/part_001]), of the file service and of the
    fixtures and expectations of the item route tests, with the properties the
    specification states about them and further properties of the sources. *)

From Stdlib Require Import String Ascii List Bool Arith ZArith Lia.
From Stdlib Require Import DecimalString DecimalNat.
Import ListNotations.

Local Open Scope string_scope.
Local Open Scope nat_scope.
Local Open Scope list_scope.

(** ** Paths

    An item path is an ltree text: labels joined by dots.  A path is kept as its
    sequence of labels and [encode] gives the text the code compares. *)

Module Path.

Definition t := list string.

Fixpoint encode (p : t) : string :=
  match p with
  | [] => ""
  | [x] => x
  | x :: rest => (x ++ "." ++ encode rest)%string
  end.

(** JS [a.startsWith(b)] on the path texts. *)
Definition startsWith (a b : t) : bool := String.prefix (encode b) (encode a).

(** Modelled from the spec: [BaseItem.parentPath] and [BaseItem.itemDepth]
    ([../base-item]) are not in the sources.  Section 4.1: [parentPath] is the
    path with the last identifier removed, none for a single identifier;
    [depth] is the number of identifiers. *)
Definition parentPath (p : t) : option t :=
  match p with
  | [] | [_] => None
  | _ => Some (removelast p)
  end.

(** Modelled from the spec: [BaseItem.itemDepth], section 4.1, the number of
    identifiers in the path. *)
Definition depth (p : t) : nat := length p.

(** Label-wise prefix test, used by the storage model. *)
Fixpoint isPrefix (a b : t) : bool :=
  match a, b with
  | [], _ => true
  | x :: a', y :: b' => String.eqb x y && isPrefix a' b'
  | _ :: _, [] => false
  end.

Definition eqb (a b : t) : bool :=
  if list_eq_dec string_dec a b then true else false.

End Path.

(** ** Data *)

Inductive PermissionLevel := Read | Write | Admin.

Definition permRank (p : PermissionLevel) : nat :=
  match p with Read => 1 | Write => 2 | Admin => 3 end.

Definition permLeb (p q : PermissionLevel) : bool := permRank p <=? permRank q.

(** An item, with the fields of the [item] schema that the operations read. *)
Record Item := mkItem {
  id : string;
  name : string;
  type_ : string;
  path : Path.t;
  creator : string
}.

Record Member := mkMember {
  memberIdOf : string
}.

Record Membership := mkMembership {
  memberId : string;
  itemPath : Path.t;
  permission : PermissionLevel
}.

(** [Partial<ItemMembership>] as [deleteManyMatching] receives it. *)
Record MembershipKey := mkKey {
  keyMemberId : string;
  keyItemPath : Path.t
}.

Record Housekeeping := mkHousekeeping {
  inserts : list Membership;
  deletes : list MembershipKey
}.

(** Errors of [util/graasp-error]: those the move task throws, and those the
    item route tests expect from create, copy and delete. *)
Inductive GraaspError :=
| ItemNotFound (i : string)
| UserCannotAdminItem (i : string)
| UserCannotWriteItem (i : string)
| InvalidMoveTarget (i : option string)
| HierarchyTooDeep
| TooManyDescendants (i : string)
| ItemNotFolder (i : string)
| MemberCannotAccess (i : string)
| TooManyChildren.

Inductive TaskStatus := NEW | RUNNING | OK.

(** ** Services

    The task receives its two services through its constructor; they are
    interfaces over a database of type [Db]. *)

Class ItemService (Db : Type) := {
  get : string -> Db -> option Item;
  getNumberOfDescendants : Item -> Db -> nat;
  getNumberOfLevelsToFarthestChild : Item -> Db -> nat;
  move : Item -> option Item -> Db -> Db
}.

Class ItemMembershipService (Db : Type) := {
  canAdmin : Member -> Item -> Db -> bool;
  canWrite : Member -> Item -> Db -> bool;
  moveHousekeeping : Item -> Member -> option Item -> Db -> Housekeeping;
  createMany : list Membership -> Db -> Db;
  deleteManyMatching : list MembershipKey -> Db -> Db
}.

(** Statements the task sends through the transaction handler, in order. *)
Inductive Call :=
| CallGet (i : string)
| CallCanAdmin (i : string)
| CallGetNumberOfDescendants (i : string)
| CallCanWrite (i : string)
| CallGetNumberOfLevelsToFarthestChild (i : string)
| CallMoveHousekeeping (i : string) (parent : option string)
| CallMove (i : string) (parent : option string)
| CallCreateMany (ms : list Membership)
| CallDeleteManyMatching (ks : list MembershipKey).

(** ** The task monad: state and exceptions *)

Section Task.

Context {Db : Type}.

Record World := mkWorld {
  db : Db;
  calls : list Call;
  status : TaskStatus;
  message : option string
}.

Definition M (A : Type) : Type := World -> (GraaspError + A) * World.

Definition ret {A} (a : A) : M A := fun w => (inr a, w).

Definition bind {A B} (m : M A) (k : A -> M B) : M B :=
  fun w =>
    match m w with
    | (inl e, w') => (inl e, w')
    | (inr a, w') => k a w'
    end.

Definition throw {A} (e : GraaspError) : M A := fun w => (inl e, w).

(** A query: reads the database and is logged. *)
Definition query {A} (c : Call) (f : Db -> A) : M A :=
  fun w => (inr (f (db w)),
            mkWorld (db w) (calls w ++ [c]) (status w) (message w)).

(** A statement: rewrites the database and is logged. *)
Definition exec (c : Call) (f : Db -> Db) : M unit :=
  fun w => (inr tt,
            mkWorld (f (db w)) (calls w ++ [c]) (status w) (message w)).

Definition setStatus (s : TaskStatus) : M unit :=
  fun w => (inr tt, mkWorld (db w) (calls w) s (message w)).

Definition setMessage (m : string) : M unit :=
  fun w => (inr tt, mkWorld (db w) (calls w) (status w) (Some m)).

End Task.

Arguments World : clear implicits.
Arguments M : clear implicits.

Declare Scope task_scope.
Delimit Scope task_scope with task.
Notation "x <- m ;; k" := (bind m (fun x => k))
  (at level 61, m at next level, right associativity) : task_scope.
Notation "m ;;; k" := (bind m (fun _ => k))
  (at level 61, right associativity) : task_scope.

(** JS truthiness of an optional string: [undefined] and [''] are falsy. *)
Definition truthy (o : option string) : bool :=
  match o with
  | Some s => negb (String.eqb s "")
  | None => false
  end.

Definition optId (o : option Item) : option string := option_map id o.

(** ** [MoveItemTask] *)

Section MoveItemTask.

Context {Db : Type} {IS : ItemService Db} {IMS : ItemMembershipService Db}.

(** [util/config] is not in the sources: the limits are parameters. *)
Variable MAX_DESCENDANTS_FOR_MOVE : nat.
Variable MAX_TREE_LEVELS : nat.

(** Constructor arguments. *)
Variable actor : Member.
Variable targetId : string.
Variable parentItemId : option string.

Local Open Scope task_scope.

(** [BaseItem.parentPath(item)] as the text the code tests, [None] for null. *)
Definition parentPathText (item : Item) : option string :=
  option_map Path.encode (Path.parentPath (path item)).

(** [moveItem], lines 97-109. *)
Definition moveItem (item : Item) (parentItem : option Item) : M Db unit :=
  hk <- query (CallMoveHousekeeping (id item) (optId parentItem))
              (moveHousekeeping item actor parentItem) ;;
  exec (CallMove (id item) (optId parentItem)) (move item parentItem) ;;;
  (match inserts hk with
   | [] => ret tt
   | _ :: _ => exec (CallCreateMany (inserts hk)) (createMany (inserts hk))
   end) ;;;
  (match deletes hk with
   | [] => ret tt
   | _ :: _ => exec (CallDeleteManyMatching (deletes hk))
                    (deleteManyMatching (deletes hk))
   end).

(** The branch of [run] that attaches the tree to a new parent, lines 48-75. *)
Definition attachTo (item : Item) (pid : string) : M Db (option Item) :=
  p <- query (CallGet pid) (get pid) ;;
  match p with
  | None => throw (ItemNotFound pid)
  | Some parentItem =>
      if Path.startsWith (path parentItem) (path item)
         || match parentPathText item with
            | Some pp => String.eqb pp (Path.encode (path parentItem))
            | None => false
            end
      then throw (InvalidMoveTarget (Some pid))
      else
        hasRightsOverParentItem <-
          query (CallCanWrite (id parentItem)) (canWrite actor parentItem) ;;
        if negb hasRightsOverParentItem
        then throw (UserCannotWriteItem pid)
        else
          levelsToFarthestChild <-
            query (CallGetNumberOfLevelsToFarthestChild (id item))
                  (getNumberOfLevelsToFarthestChild item) ;;
          if MAX_TREE_LEVELS <? Path.depth (path parentItem) + 1 + levelsToFarthestChild
          then throw HierarchyTooDeep
          else
            setMessage ("new parent " ++ pid)%string ;;;
            ret (Some parentItem)
  end.

(** [!BaseItem.parentPath(item)]: null and the empty text are falsy. *)
Definition hasNoParent (item : Item) : bool :=
  negb (truthy (parentPathText item)).

(** [run], lines 28-84. *)
Definition run : M Db unit :=
  setStatus RUNNING ;;;
  i <- query (CallGet targetId) (get targetId) ;;
  match i with
  | None => throw (ItemNotFound targetId)
  | Some item =>
      hasRights <- query (CallCanAdmin (id item)) (canAdmin actor item) ;;
      if negb hasRights
      then throw (UserCannotAdminItem targetId)
      else
        numberOfDescendants <-
          query (CallGetNumberOfDescendants (id item)) (getNumberOfDescendants item) ;;
        if MAX_DESCENDANTS_FOR_MOVE <? numberOfDescendants
        then throw (TooManyDescendants targetId)
        else
          parentItem <-
            (if truthy parentItemId
             then attachTo item (match parentItemId with Some s => s | None => "" end)
             else if hasNoParent item
                  then throw (InvalidMoveTarget None)
                  else ret None) ;;
          moveItem item parentItem ;;;
          setStatus OK
  end.

End MoveItemTask.

(** ** The relational store

    The item and membership services ([../db-service],
    [item-memberships/db-service]) are not in the sources; this module models
    them from sections 3, 4.1, 4.3 and 6 of the specification and from the
    comment above [moveItem]. *)

Module Store.

(** Modelled from the spec: the persisted state of section 6, an items table
    with a path column and a memberships table with subject, item path and
    permission. *)
Record t := mk {
  items : list Item;
  memberships : list Membership
}.

(** Modelled from the spec: [ItemService.get], the item with that identifier or
    none. *)
Definition getItem (i : string) (s : t) : option Item :=
  find (fun it => String.eqb (id it) i) (items s).

(** Modelled from the spec: section 4.3, a path strictly inside a subtree, a
    descendant of its root and not equal to it. *)
Definition strictlyBelow (ancestor candidate : Path.t) : bool :=
  Path.isPrefix ancestor candidate && negb (Path.eqb candidate ancestor).

(** Modelled from the spec: the descendant-of filter of section 4.1 on the items
    table. *)
Definition descendants (item : Item) (s : t) : list Item :=
  filter (fun it => strictlyBelow (path item) (path it)) (items s).

(** Modelled from the spec: [ItemService.getNumberOfDescendants], how big the
    tree below the item is. *)
Definition numberOfDescendants (item : Item) (s : t) : nat :=
  length (descendants item s).

(** Modelled from the spec: [ItemService.getNumberOfLevelsToFarthestChild], the
    height of the subtree below the item in levels, zero without descendant. *)
Definition levelsToFarthestChild (item : Item) (s : t) : nat :=
  fold_right Nat.max 0
    (map (fun it => Path.depth (path it) - Path.depth (path item)) (descendants item s)).

(** *** Effective permission *)

(** Modelled from the spec: section 4.3, the memberships of a subject whose item
    path is a prefix of, or equal to, the path. *)
Definition covers (subject : string) (p : Path.t) (m : Membership) : bool :=
  String.eqb (memberId m) subject && Path.isPrefix (itemPath m) p.

(** Modelled from the spec: section 4.3, the longest path wins and, among
    equally specific memberships, the highest level. *)
Definition moreSpecific (m best : Membership) : bool :=
  (length (itemPath best) <? length (itemPath m))
  || ((length (itemPath best) =? length (itemPath m))
      && (permRank (permission best) <? permRank (permission m))).

(** Modelled from the spec: section 4.3, the selection among the covering
    memberships. *)
Definition closest (ms : list Membership) : option Membership :=
  fold_left (fun best m =>
               match best with
               | None => Some m
               | Some b => if moreSpecific m b then Some m else Some b
               end) ms None.

(** Modelled from the spec: [effectivePermission] of section 4.3, none when no
    membership covers the path. *)
Definition effectivePermission (subject : string) (p : Path.t) (s : t)
  : option PermissionLevel :=
  option_map permission (closest (filter (covers subject p) (memberships s))).

(** Modelled from the spec: the ordered scale read < write < admin of section
    3; no permission is below every level. *)
Definition atLeast (lvl : PermissionLevel) (o : option PermissionLevel) : bool :=
  match o with
  | Some q => permLeb lvl q
  | None => false
  end.

(** Modelled from the spec: [canRead], [canWrite] and [canAdmin] of section 4.3
    compare the effective permission with the ordered scale. *)
Definition canRead (actor : Member) (item : Item) (s : t) : bool :=
  atLeast Read (effectivePermission (memberIdOf actor) (path item) s).

Definition canWriteItem (actor : Member) (item : Item) (s : t) : bool :=
  atLeast Write (effectivePermission (memberIdOf actor) (path item) s).

Definition canAdminItem (actor : Member) (item : Item) (s : t) : bool :=
  atLeast Admin (effectivePermission (memberIdOf actor) (path item) s).

(** *** Moving a subtree *)

(** Modelled from the spec: section 3, the last identifier of a path is the
    item's own. *)
Definition selfLabel (p : Path.t) : Path.t := skipn (length p - 1) p.

(** Modelled from the spec: the path of the destination, empty for the root. *)
Definition parentPathOf (parentItem : option Item) : Path.t :=
  match parentItem with
  | Some p => path p
  | None => []
  end.

(** Modelled from the spec: section 3, the path of the subtree root after the
    move, the destination's path (none at the root) plus its own identifier. *)
Definition pathAfter (item : Item) (parentItem : option Item) : Path.t :=
  parentPathOf parentItem ++ selfLabel (path item).

(** Modelled from the spec: section 4.3, step 1, the path prefix
    [subtreeRootPathBefore] is replaced with [subtreeRootPathAfter]. *)
Definition rewrite (before after p : Path.t) : Path.t :=
  if Path.isPrefix before p then after ++ skipn (length before) p else p.

(** Modelled from the spec: section 3, a move rewrites the path and nothing
    else. *)
Definition moveItemRow (before after : Path.t) (it : Item) : Item :=
  mkItem (id it) (name it) (type_ it) (rewrite before after (path it)) (creator it).

Definition moveMembershipRow (before after : Path.t) (m : Membership) : Membership :=
  mkMembership (memberId m) (rewrite before after (itemPath m)) (permission m).

(** Modelled from the spec: [ItemService.move], section 4.3 step 1 and the
    comment above [moveItem]: the paths of the items of the subtree are rewritten
    and the membership paths follow by cascade. *)
Definition movePaths (item : Item) (parentItem : option Item) (s : t) : t :=
  let before := path item in
  let after := pathAfter item parentItem in
  mk (map (moveItemRow before after) (items s))
     (map (moveMembershipRow before after) (memberships s)).

(** *** Reconciliation of memberships on a move *)

(** Modelled from the spec: the subjects that hold a membership. *)
Definition subjects (s : t) : list string :=
  nodup string_dec (map memberId (memberships s)).

(** Modelled from the spec: section 4.3, the subject has an explicit membership
    on the item at that path. *)
Definition hasExplicit (subject : string) (p : Path.t) (s : t) : bool :=
  existsb (fun m => String.eqb (memberId m) subject && Path.eqb (itemPath m) p)
          (memberships s).

(** Modelled from the spec: section 4.3, the ancestor chain at the destination
    grants the subject an equal or higher permission; the root grants nothing. *)
Definition grantedAt (parentItem : option Item) (subject : string)
           (lvl : PermissionLevel) (s : t) : bool :=
  match parentItem with
  | Some p => atLeast lvl (effectivePermission subject (path p) s)
  | None => false
  end.

(** Modelled from the spec: section 4.3, insert.  Every subject whose access to
    the subtree root was purely inherited (no membership on the root itself) and
    that the destination does not grant as much gets an explicit membership with
    the level it had; the comment above [moveItem]: the insert carries the path
    expected at the destination. *)
Definition housekeepingInserts (item : Item) (parentItem : option Item) (s : t)
  : list Membership :=
  flat_map
    (fun subject =>
       if hasExplicit subject (path item) s then []
       else match effectivePermission subject (path item) s with
            | Some lvl =>
                if grantedAt parentItem subject lvl s then []
                else [mkMembership subject (pathAfter item parentItem) lvl]
            | None => []
            end)
    (subjects s).

(** Modelled from the spec: section 4.3, delete.  A membership on the subtree
    root or below it that the new ancestor chain makes redundant is marked; the
    comment above [moveItem]: the delete carries the path the row has after
    [ItemService.move]. *)
Definition housekeepingDeletes (item : Item) (parentItem : option Item) (s : t)
  : list MembershipKey :=
  flat_map
    (fun m =>
       if Path.isPrefix (path item) (itemPath m)
          && grantedAt parentItem (memberId m) (permission m) s
       then [mkKey (memberId m)
                   (rewrite (path item) (pathAfter item parentItem) (itemPath m))]
       else [])
    (memberships s).

(** Modelled from the spec: [computeMoveHousekeeping] of section 4.3,
    [ItemMembershipService.moveHousekeeping] in the task. *)
Definition computeMoveHousekeeping (item : Item) (actor : Member)
           (parentItem : option Item) (s : t) : Housekeeping :=
  mkHousekeeping (housekeepingInserts item parentItem s)
                 (housekeepingDeletes item parentItem s).

(** Modelled from the spec: [ItemMembershipService.createMany], new rows. *)
Definition insertMemberships (ms : list Membership) (s : t) : t :=
  mk (items s) (memberships s ++ ms).

(** Modelled from the spec: a membership row matches a key on its subject and
    item path. *)
Definition matchesKey (m : Membership) (k : MembershipKey) : bool :=
  String.eqb (memberId m) (keyMemberId k) && Path.eqb (itemPath m) (keyItemPath k).

(** Modelled from the spec: [ItemMembershipService.deleteManyMatching], the
    rows of that subject at that item path are removed. *)
Definition deleteMatching (ks : list MembershipKey) (s : t) : t :=
  mk (items s)
     (filter (fun m => negb (existsb (matchesKey m) ks)) (memberships s)).

#[export] Instance itemService : ItemService t := {
  get := getItem;
  getNumberOfDescendants := numberOfDescendants;
  getNumberOfLevelsToFarthestChild := levelsToFarthestChild;
  move := movePaths
}.

#[export] Instance itemMembershipService : ItemMembershipService t := {
  canAdmin := canAdminItem;
  canWrite := canWriteItem;
  moveHousekeeping := computeMoveHousekeeping;
  createMany := insertMemberships;
  deleteManyMatching := deleteMatching
}.

(** The depth bound of section 3 on the items table. *)
Definition depthBounded (maxDepth : nat) (s : t) : Prop :=
  forall it, In it (items s) -> Path.depth (path it) <= maxDepth.

End Store.

(** ** Single-target operations of the planner *)

Module Planner.

Import Store.

Definition Task := string -> Store.t -> (GraaspError + unit) * Store.t.

Section Limits.

Variable MAX_DESCENDANTS_FOR_MOVE : nat.
Variable MAX_TREE_LEVELS : nat.
Variable MAX_NUMBER_OF_CHILDREN : nat.
Variable actor : Member.

(** A [MoveItemTask] built for one target and run on the store. *)
Definition moveTask (parentItemId : option string) : Task :=
  fun targetId s =>
    let r := run MAX_DESCENDANTS_FOR_MOVE MAX_TREE_LEVELS actor targetId parentItemId
                 (mkWorld s [] NEW None) in
    (fst r, db (snd r)).

(** Modelled from the spec: the delete operation is not in the sources.
    Section 4.4: the item rows of the whole subtree and the memberships scoped
    under it are removed. *)
Definition deleteSubtree (item : Item) (s : Store.t) : Store.t :=
  Store.mk
    (filter (fun it => negb (Path.isPrefix (path item) (path it))) (items s))
    (filter (fun m => negb (Path.isPrefix (path item) (itemPath m))) (memberships s)).

(** Modelled from the spec: section 4.4, delete: the actor must administer the
    item, and an absent item is [ItemNotFound]. *)
Definition deleteTask : Task :=
  fun targetId s =>
    match getItem targetId s with
    | None => (inl (ItemNotFound targetId), s)
    | Some item =>
        if negb (canAdminItem actor item s)
        then (inl (UserCannotAdminItem targetId), s)
        else (inr tt, deleteSubtree item s)
    end.

(** Modelled from the spec: the direct children of a folder, or the root items:
    the items whose parent path is the folder's path. *)
Definition children (parentItem : option Item) (s : Store.t) : list Item :=
  filter (fun it => match path it with
                    | [] => false
                    | _ => Path.eqb (removelast (path it)) (parentPathOf parentItem)
                    end)
         (items s).

(** Modelled from the spec: [assertDepthAllowed] of section 4.2. *)
Definition assertDepthAllowed (prospectivePath : Path.t) : option GraaspError :=
  if MAX_TREE_LEVELS <? Path.depth prospectivePath then Some HierarchyTooDeep else None.

(** Modelled from the spec: the create operation is not in the sources.
    Sections 3 and 4.2: the item gets the parent's path plus its own identifier,
    within the depth limit and the child-count limit of the parent, and the
    creator an admin membership on it unless the parent already grants it. *)
Definition insertItem (newId newName newType : string) (parentItem : option Item)
           (s : Store.t) : (GraaspError + Item) * Store.t :=
  let it := mkItem newId newName newType (parentPathOf parentItem ++ [newId])
                   (memberIdOf actor) in
  match assertDepthAllowed (path it) with
  | Some e => (inl e, s)
  | None =>
      if match parentItem with
         | Some _ => MAX_NUMBER_OF_CHILDREN <=? length (children parentItem s)
         | None => false
         end
      then (inl TooManyChildren, s)
      else
        (inr it,
         Store.mk (items s ++ [it])
                  (memberships s ++
                   if grantedAt parentItem (memberIdOf actor) Admin s then []
                   else [mkMembership (memberIdOf actor) (path it) Admin]))
  end.

(** Modelled from the spec: create, sections 4.2 and 6: the parent must exist,
    be writable by the actor and be a folder. *)
Definition createItem (newId newName newType : string) (parentId : option string)
           (s : Store.t) : (GraaspError + Item) * Store.t :=
  match parentId with
  | None => insertItem newId newName newType None s
  | Some pid =>
      match getItem pid s with
      | None => (inl (ItemNotFound pid), s)
      | Some parentItem =>
          if negb (canWriteItem actor parentItem s)
          then (inl (UserCannotWriteItem pid), s)
          else if negb (String.eqb (type_ parentItem) "folder")
               then (inl (ItemNotFolder pid), s)
               else insertItem newId newName newType (Some parentItem) s
      end
  end.

(** *** Copy *)

Section Copy.

(** The name given to the root of the copy, from its name and the names of the
    siblings at the destination (the suffix of section 4.4), and the identifier
    generated for the copy of each item. *)
Variable naming : string -> list string -> string.
Variable fresh : string -> string.

(** Modelled from the spec: section 4.4, the copy of one item of the subtree:
    a generated identifier, the path recomputed under the destination, the
    actor as creator, the other attributes kept; the root gets the new name. *)
Definition copyRow (item : Item) (parentItem : option Item) (newName : string)
           (it : Item) : Item :=
  mkItem (fresh (id it))
         (if Path.eqb (path it) (path item) then newName else name it)
         (type_ it)
         (parentPathOf parentItem
            ++ map fresh (skipn (length (path item) - 1) (path it)))
         (memberIdOf actor).

(** Modelled from the spec: section 4.4, every item of the subtree is
    duplicated, with its path rooted at the destination. *)
Definition copiesOf (item : Item) (parentItem : option Item) (s : Store.t)
  : list Item :=
  map (copyRow item parentItem (naming (name item) (map name (children parentItem s))))
      (filter (fun it => Path.isPrefix (path item) (path it)) (items s)).

(** Modelled from the spec: section 4.4, copy.  The copies are added; the actor
    gets an admin membership at the new root unless the destination already
    grants it. *)
Definition copySubtree (item : Item) (parentItem : option Item) (s : Store.t)
  : Store.t :=
  Store.mk
    (items s ++ copiesOf item parentItem s)
    (memberships s ++
     if grantedAt parentItem (memberIdOf actor) Admin s then []
     else [mkMembership (memberIdOf actor)
                        (parentPathOf parentItem ++ [fresh (id item)]) Admin]).

(** Modelled from the spec: sections 4.2 and 8 (P2), an operation that would
    put an item deeper than the maximum is rejected before anything is
    written: every path of the copy passes [assertDepthAllowed]. *)
Definition copyIfAllowed (item : Item) (parentItem : option Item) (s : Store.t)
  : (GraaspError + unit) * Store.t :=
  if existsb (fun c => match assertDepthAllowed (path c) with
                       | Some _ => true
                       | None => false
                       end) (copiesOf item parentItem s)
  then (inl HierarchyTooDeep, s)
  else (inr tt, copySubtree item parentItem s).

(** Modelled from the spec: section 4.4, copy: the actor must read the source
    and write the destination, which must be a folder. *)
Definition copyTask (parentItemId : option string) : Task :=
  fun targetId s =>
    match getItem targetId s with
    | None => (inl (ItemNotFound targetId), s)
    | Some item =>
        if negb (canRead actor item s)
        then (inl (MemberCannotAccess targetId), s)
        else
          match parentItemId with
          | None => copyIfAllowed item None s
          | Some pid =>
              match getItem pid s with
              | None => (inl (ItemNotFound pid), s)
              | Some parentItem =>
                  if negb (String.eqb (type_ parentItem) "folder")
                  then (inl (ItemNotFolder pid), s)
                  else if negb (canWriteItem actor parentItem s)
                       then (inl (UserCannotWriteItem pid), s)
                       else copyIfAllowed item (Some parentItem) s
              end
          end
    end.

(** The operations that change the tree, and a sequence of them on the store:
    each returns its outcome and the store it leaves. *)
Inductive Operation :=
| Move (targetId : string) (parentItemId : option string)
| Create (newId newName newType : string) (parentId : option string)
| Copy (targetId : string) (parentItemId : option string)
| Delete (targetId : string).

Definition perform (op : Operation) (s : Store.t) : (GraaspError + unit) * Store.t :=
  match op with
  | Move targetId parentItemId => moveTask parentItemId targetId s
  | Create newId newName newType parentId =>
      let (r, s') := createItem newId newName newType parentId s in
      (match r with inl e => inl e | inr _ => inr tt end, s')
  | Copy targetId parentItemId => copyTask parentItemId targetId s
  | Delete targetId => deleteTask targetId s
  end.

Definition performAll (ops : list Operation) (s : Store.t) : Store.t :=
  fold_left (fun s0 op => snd (perform op s0)) ops s.

End Copy.

End Limits.

End Planner.

(** ** Bulk operations *)

Module Bulk.

Import Planner.

(** Modelled from the spec: the coordinator is not in the sources.  Section 4.5:
    the planner is applied to each target independently, each target in its own
    transactional scope, and a failing target does not block the others; the
    outcomes are accumulated per target. *)
Fixpoint runEach (task : Task) (ids : list string) (s : Store.t)
  : list (string * (GraaspError + unit)) * Store.t :=
  match ids with
  | [] => ([], s)
  | i :: rest =>
      let (r, s1) := task i s in
      let s1' := match r with inl _ => s | inr _ => s1 end in
      let (rs, s2) := runEach task rest s1' in
      ((i, r) :: rs, s2)
  end.

End Bulk.

(** ** JSON values and fluent schemas *)

Module Json.

#[warnings="-register-all"]
Inductive t :=
| Null
| Bool (b : bool)
| Num (n : Z)
| Str (s : string)
| Arr (l : list t)
| Obj (fields : list (string * t)).

Fixpoint lookup (k : string) (fields : list (string * t)) : option t :=
  match fields with
  | [] => None
  | (k', v) :: rest => if String.eqb k k' then Some v else lookup k rest
  end.

Definition strings (l : list string) : t := Arr (map Str l).

End Json.

(** A schema built with [fluent-json-schema]: the property names it declares,
    whether other properties are refused, and the keywords it accumulated. *)
Module S.

Import Json.

Record Schema := mkSchema {
  declared : list string;
  closed : bool;
  holds : Json.t -> bool
}.

Definition validate (s : Schema) (j : Json.t) : bool :=
  holds s j
  && (negb (closed s)
      || match j with
         | Obj fields =>
             forallb (fun kv => existsb (String.eqb (fst kv)) (declared s)) fields
         | _ => true
         end).

Definition withKeyword (k : Json.t -> bool) (s : Schema) : Schema :=
  mkSchema (declared s) (closed s) (fun j => holds s j && k j).

Definition object : Schema :=
  mkSchema [] false (fun j => match j with Obj _ => true | _ => false end).

Definition array : Schema :=
  mkSchema [] false (fun j => match j with Arr _ => true | _ => false end).

Definition string : Schema :=
  mkSchema [] false (fun j => match j with Str _ => true | _ => false end).

(** [S.raw({})]: no constraint. *)
Definition raw : Schema := mkSchema [] false (fun _ => true).

(** [S.mixed(['string', 'null'])]. *)
Definition stringOrNull : Schema :=
  mkSchema [] false (fun j => match j with Str _ | Null => true | _ => false end).

Definition additionalProperties (allowed : bool) (s : Schema) : Schema :=
  mkSchema (declared s) (negb allowed) (holds s).

Definition prop (k : String.string) (sk : Schema) (s : Schema) : Schema :=
  mkSchema (k :: declared s) (closed s)
           (fun j => holds s j
                     && match j with
                        | Obj fields =>
                            match lookup k fields with
                            | Some v => validate sk v
                            | None => true
                            end
                        | _ => true
                        end).

Definition required (ks : list String.string) : Schema -> Schema :=
  withKeyword (fun j => match j with
                        | Obj fields =>
                            forallb (fun k => match lookup k fields with
                                              | Some _ => true
                                              | None => false
                                              end) ks
                        | _ => true
                        end).

Definition maxItems (n : nat) : Schema -> Schema :=
  withKeyword (fun j => match j with
                        | Arr l => length l <=? n
                        | _ => true
                        end).

Definition items (si : Schema) : Schema -> Schema :=
  withKeyword (fun j => match j with
                        | Arr l => forallb (validate si) l
                        | _ => true
                        end).

Definition anyOf (alts : list Schema) : Schema :=
  mkSchema [] false (fun j => existsb (fun s => validate s j) alts).

(** [s.extend(base)]: the declarations and keywords of both schemas apply. *)
Definition extend (base : Schema) (s : Schema) : Schema :=
  mkSchema (declared s ++ declared base) (closed s || closed base)
           (fun j => holds base j && holds s j).

End S.

Notation "s '|>' f" := (f s) (at level 62, left associativity, only parsing).

(** ** [services/items/fluent-schema.ts] *)

Module FluentSchema.

Import S.

Record RouteSchema := mkRouteSchema {
  querystring : Schema;
  body : option Schema;
  response : list (nat * Schema)
}.

Section Schemas.

(** [util/config] and [schemas/fluent-schema] are not in the sources: the
    limit and the shared schemas are parameters. *)
Variable MAX_TARGETS_FOR_MODIFY_REQUEST : nat.
Variable uuid : Schema.
Variable idsQuery : Schema.
Variable error : Schema.

(** for serialization *)
Definition item : Schema :=
  object
  |> additionalProperties false
  |> prop "id" uuid
  |> prop "name" string
  |> prop "description" stringOrNull
  |> prop "type" string
  |> prop "path" string
  |> prop "extra" (object |> additionalProperties true)
  |> prop "creator" string
  |> prop "createdAt" raw
  |> prop "updatedAt" raw.

Definition parentIdBody : Schema :=
  object |> additionalProperties false |> prop "parentId" uuid.

Definition idsQuerystring : Schema :=
  object
  |> prop "id" (array |> maxItems MAX_TARGETS_FOR_MODIFY_REQUEST)
  |> extend idsQuery.

(** The ['4xx'] entries of the response maps, all the shared [error] schema,
    are left out. *)
Definition deleteMany : RouteSchema :=
  mkRouteSchema
    idsQuerystring
    None
    [ (200, array |> items (anyOf [error; item]));
      (202, array |> items uuid) ].

Definition moveMany : RouteSchema :=
  mkRouteSchema idsQuerystring (Some parentIdBody) [].

Definition copyMany : RouteSchema :=
  mkRouteSchema idsQuerystring (Some parentIdBody) [].

(** The schemas of the three bulk routes that modify items. *)
Definition bulkSchemas : list RouteSchema := [moveMany; copyMany; deleteMany].

End Schemas.

End FluentSchema.

(** ** The item routes *)

Module Routes.

Import Json Planner Bulk FluentSchema.

Record Request := mkRequest {
  query : Json.t;
  payload : Json.t
}.

Record Reply := mkReply {
  statusCode : nat;
  json : Json.t
}.

Definition BAD_REQUEST := 400.
Definition ACCEPTED := 202.
Definition OK_ := 200.

(** [IdsParams], [src/unnamed/part_002]: the [id] array of the query. *)
Definition idsOf (q : Json.t) : list string :=
  match q with
  | Obj fields =>
      match lookup "id" fields with
      | Some (Arr l) =>
          flat_map (fun j => match j with Str s => [s] | _ => [] end) l
      | _ => []
      end
  | _ => []
  end.

Definition parentIdOf (b : Json.t) : option string :=
  match b with
  | Obj fields =>
      match lookup "parentId" fields with
      | Some (Str s) => Some s
      | _ => None
      end
  | _ => None
  end.

Definition idsRequest (ids : list string) (parentId : option string) : Request :=
  mkRequest (Obj [("id", strings ids)])
            (match parentId with
             | Some p => Obj [("parentId", Str p)]
             | None => Obj []
             end).

Fixpoint responseFor (code : nat) (rs : list (nat * S.Schema)) : option S.Schema :=
  match rs with
  | [] => None
  | (c, sch) :: rest => if c =? code then Some sch else responseFor code rest
  end.

(** The request against the schemas of the route, read as JSON schemas.  The
    server ([src/server.ts]) builds its validator with [coerceTypes: 'array'],
    which turns a single value into an array of one; that coercion, and the
    removal of undeclared properties, are not modelled, so a request refused
    here may be one the server accepts after coercion, never the reverse. *)
Definition acceptedBy (schema : RouteSchema) (req : Request) : bool :=
  S.validate (querystring schema) (query req)
  && match body schema with
     | Some b => S.validate b (payload req)
     | None => true
     end.

(** Modelled from the spec: the route handlers of [/items] are not in the
    sources.  Sections 4.5 and 7: a request that fails validation is rejected
    at the boundary with a bad request, before the handler runs. *)
Definition route (schema : RouteSchema)
           (handler : Request -> Store.t -> Reply * Store.t)
           (req : Request) (s : Store.t) : Reply * Store.t :=
  if acceptedBy schema req then handler req s
  else (mkReply BAD_REQUEST Null, s).

(** Modelled from the spec: section 4.5, the structured [{results, errors}] map
    keyed by target identifier. *)
Definition outcomeMap (rs : list (string * (GraaspError + unit))) : Json.t :=
  Obj [ ("results",
         Obj (flat_map (fun r => match snd r with
                                 | inr _ => [(fst r, Str (fst r))]
                                 | inl _ => []
                                 end) rs));
        ("errors",
         Obj (flat_map (fun r => match snd r with
                                 | inl _ => [(fst r, Str "error")]
                                 | inr _ => []
                                 end) rs)) ].

(** The outcomes as the 200 answer of [deleteMany] and [updateMany] declares
    them ([fluent-schema.ts], lines 107 and 123): an array with one entry per
    target, the item or the error of that target.  The results of the tasks and
    the [error] schema are not in the sources: [present] is what is written for
    a target and its outcome. *)
Definition outcomeArray (present : string -> GraaspError + unit -> Json.t)
           (rs : list (string * (GraaspError + unit))) : Json.t :=
  Arr (map (fun r => present (fst r) (snd r)) rs).

(** Modelled from the spec: the bulk handlers are not in the sources.  Section
    4.5: the planner runs on each target; below the synchronous threshold the
    answer carries the outcome of every target, at or above it the request is
    acknowledged with the accepted status and the target identifiers.  The
    statuses and the shapes of the two answers are those that the schemas
    declare: 200 with an array of items or errors, 202 with an array of
    identifiers.  The threshold is not in the sources either. *)
Definition coordinator (syncThreshold : nat)
           (present : string -> GraaspError + unit -> Json.t)
           (task : Task) (ids : list string) (s : Store.t) : Reply * Store.t :=
  let (rs, s') := runEach task ids s in
  (if length ids <? syncThreshold
   then mkReply OK_ (outcomeArray present rs)
   else mkReply ACCEPTED (strings ids),
   s').

Section Routes.

Variable MAX_DESCENDANTS_FOR_MOVE : nat.
Variable MAX_TREE_LEVELS : nat.
Variable MAX_TARGETS_FOR_MODIFY_REQUEST : nat.
Variable syncThreshold : nat.
Variable uuid idsQuery error : S.Schema.
Variable present : string -> GraaspError + unit -> Json.t.
Variable naming : string -> list string -> string.
Variable fresh : string -> string.
Variable actor : Member.

Definition moveManyRoute : Request -> Store.t -> Reply * Store.t :=
  route (moveMany MAX_TARGETS_FOR_MODIFY_REQUEST uuid idsQuery)
        (fun req =>
           coordinator syncThreshold present
             (moveTask MAX_DESCENDANTS_FOR_MOVE MAX_TREE_LEVELS actor
                       (parentIdOf (payload req)))
             (idsOf (query req))).

Definition deleteManyRoute : Request -> Store.t -> Reply * Store.t :=
  route (deleteMany MAX_TARGETS_FOR_MODIFY_REQUEST uuid idsQuery error)
        (fun req => coordinator syncThreshold present (deleteTask actor)
                                (idsOf (query req))).

Definition copyManyRoute : Request -> Store.t -> Reply * Store.t :=
  route (copyMany MAX_TARGETS_FOR_MODIFY_REQUEST uuid idsQuery)
        (fun req =>
           coordinator syncThreshold present
             (copyTask MAX_TREE_LEVELS actor naming fresh (parentIdOf (payload req)))
             (idsOf (query req))).

End Routes.

End Routes.

(** ** The password routes, [src/unnamed/part_001] *)

Module Password.

Module StatusCodes.
Definition OK := 200.
Definition NO_CONTENT := 204.
Definition NOT_FOUND := 404.
End StatusCodes.

(** [reply]: the status set so far, and what was written to the console. *)
Record Reply := mkReply {
  statusCode : nat;
  console : list (option Member)
}.

Definition status (code : nat) (r : Reply) : Reply := mkReply code (console r).

Definition consoleLog (m : option Member) (r : Reply) : Reply :=
  mkReply (statusCode r) (console r ++ [m]).

Section Plugin.

(** The services resolved by the plugin, over the repositories [Db]; a call
    either throws an error of type [E] or leaves a new database. *)
Context {Db E : Type}.
Variable getByEmail : Db -> string -> option Member.
Variable validate : string -> Db -> E + Db.
Variable post : Member -> Db -> string -> E + Db.

(** [db.transaction(body)]: a throw rolls the writes back and is rethrown. *)
Definition transaction (body : Db -> Reply -> (E + Db) * Reply)
           (d : Db) (r : Reply) : (E + unit) * Db * Reply :=
  match body d r with
  | (inr d', r') => (inr tt, d', r')
  | (inl e, r') => (inl e, d, r')
  end.

(** The [if (member) ... else ...] of the handler, lines 107-114. *)
Definition memberBranch (member : option Member) (password : string)
           (manager : Db) (reply : Reply) : (E + Db) * Reply :=
  match member with
  | Some m =>
      match validate (memberIdOf m) manager with
      | inl e => (inl e, reply)
      | inr manager1 =>
          match post m manager1 password with
          | inl e => (inl e, reply)
          | inr manager2 => (inr manager2, reply)
          end
      end
  | None =>
      (inr manager, status StatusCodes.NOT_FOUND (consoleLog member reply))
  end.

(** [POST /password/nouser], lines 99-118: the member is looked up, the branch
    runs, and the status is set after it. *)
Definition postPasswordNoUser (email password : string)
  : Db -> Reply -> (E + unit) * Db * Reply :=
  transaction
    (fun manager reply =>
       let member := getByEmail manager email in
       match memberBranch member password manager reply with
       | (inl e, reply') => (inl e, reply')
       | (inr manager', reply') => (inr manager', status StatusCodes.NO_CONTENT reply')
       end).

End Plugin.

End Password.

(** ** Statements about a move request *)

(** The class name of an error, as it reaches the caller. *)
Definition errorName (e : GraaspError) : string :=
  match e with
  | ItemNotFound _ => "ItemNotFound"
  | UserCannotAdminItem _ => "UserCannotAdminItem"
  | UserCannotWriteItem _ => "UserCannotWriteItem"
  | InvalidMoveTarget _ => "InvalidMoveTarget"
  | HierarchyTooDeep => "HierarchyTooDeep"
  | TooManyDescendants _ => "TooManyDescendants"
  | ItemNotFolder _ => "ItemNotFolder"
  | MemberCannotAccess _ => "MemberCannotAccess"
  | TooManyChildren => "TooManyChildren"
  end.

(** The destination a request names: the parent item found for a truthy
    [parentItemId], or the root for a falsy one. *)
Definition destinationIs {Db} {IS : ItemService Db}
           (parentItemId : option string) (d : Db) (parentItem : option Item) : Prop :=
  match parentItem with
  | Some p => exists pid, parentItemId = Some pid /\ pid <> "" /\ get pid d = Some p
  | None => truthy parentItemId = false
  end.

(** The destination is the item itself or below it, or the parent the item
    already has (the root for an item without parent). *)
Definition noopOrCycle (item : Item) (parentItem : option Item) : Prop :=
  match parentItem with
  | Some p =>
      Path.isPrefix (path item) (path p) = true
      \/ Path.parentPath (path item) = Some (path p)
  | None => Path.parentPath (path item) = None
  end.

(** The identifier [InvalidMoveTarget] is built with. *)
Definition invalidTarget (parentItemId : option string) : option string :=
  if truthy parentItemId then parentItemId else None.

(** Calls that only read the database. *)
Definition isRead (c : Call) : bool :=
  match c with
  | CallGet _ | CallCanAdmin _ | CallGetNumberOfDescendants _
  | CallCanWrite _ | CallGetNumberOfLevelsToFarthestChild _ => true
  | _ => false
  end.

(** What [moveItem] leaves in the database and in the log, spelled out. *)
Definition applyInserts {Db} {IMS : ItemMembershipService Db}
           (hk : Housekeeping) (d : Db) : Db :=
  match inserts hk with
  | [] => d
  | _ :: _ => createMany (inserts hk) d
  end.

Definition applyDeletes {Db} {IMS : ItemMembershipService Db}
           (hk : Housekeeping) (d : Db) : Db :=
  match deletes hk with
  | [] => d
  | _ :: _ => deleteManyMatching (deletes hk) d
  end.

Definition insertCalls (hk : Housekeeping) : list Call :=
  match inserts hk with
  | [] => []
  | _ :: _ => [CallCreateMany (inserts hk)]
  end.

Definition deleteCalls (hk : Housekeeping) : list Call :=
  match deletes hk with
  | [] => []
  | _ :: _ => [CallDeleteManyMatching (deletes hk)]
  end.

(** ** Fixtures of the item route tests *)

Module Fixtures.

Import Store Planner Json.

Definition decimal (n : nat) : string := NilEmpty.string_of_uint (Nat.to_uint n).

(** [testUtils.saveItem]: a folder saved under [parentItem], without membership. *)
Definition saveItem (newId newName : string) (actor : Member)
           (parentItem : option Item) (s : Store.t) : Item * Store.t :=
  let it := mkItem newId newName "folder" (parentPathOf parentItem ++ [newId])
                   (memberIdOf actor) in
  (it, Store.mk (items s ++ [it]) (memberships s)).

(** [testUtils.saveItemAndMembership]: the item and an admin membership of
    [member] on it. *)
Definition saveItemAndMembership (newId newName : string) (member creator : Member)
           (parentItem : option Item) (s : Store.t) : Item * Store.t :=
  let (it, s1) := saveItem newId newName creator parentItem s in
  (it, Store.mk (items s1)
                (memberships s1 ++ [mkMembership (memberIdOf member) (path it) Admin])).

(** [saveNbOfItems], lines 231-253: items named ['item ' + i]. *)
Fixpoint saveNbOfItemsFrom (i nb : nat) (idOf : nat -> string) (member creator : Member)
         (parentItem : option Item) (s : Store.t) : list Item * Store.t :=
  match nb with
  | 0 => ([], s)
  | S nb' =>
      let (it, s1) :=
        saveItemAndMembership (idOf i) ("item " ++ decimal i)%string member creator
                              parentItem s in
      let (its, s2) := saveNbOfItemsFrom (S i) nb' idOf member creator parentItem s1 in
      (it :: its, s2)
  end.

Definition saveNbOfItems := saveNbOfItemsFrom 0.

(** [saveUntilMaxDescendants], lines 214-229: a chain below [parent], one item
    per level for [MAX_TREE_LEVELS - 1] levels; returns the last child. *)
Fixpoint saveChain (i n : nat) (idOf : nat -> string) (actor : Member)
         (currentParent : Item) (s : Store.t) : Item * Store.t :=
  match n with
  | 0 => (currentParent, s)
  | S n' =>
      let (newCurrentParent, s1) :=
        saveItem (idOf i) (idOf i) actor (Some currentParent) s in
      saveChain (S i) n' idOf actor newCurrentParent s1
  end.

Definition saveUntilMaxDescendants (MAX_TREE_LEVELS : nat) (idOf : nat -> string)
           (parent : Item) (actor : Member) (s : Store.t) : Item * Store.t :=
  saveChain 0 (MAX_TREE_LEVELS - 1) idOf actor parent s.

Definition empty : Store.t := Store.mk [] [].
Definition actor : Member := mkMember "actor".
Definition itemId (i : nat) : string := ("item-" ++ decimal i)%string.
Definition levelId (i : nat) : string := ("level-" ++ decimal i)%string.
Definition copyId (i : string) : string := ("copy-of-" ++ i)%string.

(** A sample configuration. *)
Definition MAX_TREE_LEVELS := 15.
Definition MAX_DESCENDANTS_FOR_MOVE := 15.
Definition MAX_NUMBER_OF_CHILDREN := 10.
Definition MAX_TARGETS_FOR_MODIFY_REQUEST := 20.

(** Stand-ins for the shared schemas of [schemas/fluent-schema]. *)
Definition uuid : S.Schema := S.string.
Definition idsQuery : S.Schema :=
  S.object |> S.additionalProperties false
           |> S.prop "id" (S.array |> S.items uuid)
           |> S.required ["id"].
Definition error : S.Schema := S.object.

(** A sample synchronous threshold, and sample entries of a 200 answer: the
    identifier of the item, or the name of the error. *)
Definition syncThreshold := 5.
Definition present (i : string) (r : GraaspError + unit) : Json.t :=
  match r with
  | inr _ => Obj [("id", Str i)]
  | inl e => Obj [("name", Str (errorName e))]
  end.

(** 'Move lots of items', lines 2986-3011: a parent and [nb] root items of the
    actor. *)
Definition parentAndItems (nb : nat) : Item * list Item * Store.t :=
  let (parentItem, s1) := saveItemAndMembership "parent" "parent" actor actor None empty in
  let (its, s2) := saveNbOfItems nb itemId actor actor None s1 in
  (parentItem, its, s2).

(** The expectation of 'Move lots of items': every item has a path under the
    parent. *)
Definition allUnder (parentItem : Item) (its : list Item) (s : Store.t) : bool :=
  forallb (fun it => match getItem (id it) s with
                     | Some result => Path.startsWith (path result) (path parentItem)
                     | None => false
                     end) its.

(** 'Move successfully item to root and create new membership', lines
    2860-2890: an item saved under the actor's folder without a membership. *)
Definition inheritedItem : Item * Item * Store.t :=
  let (parentItem, s1) := saveItemAndMembership "parent" "parent" actor actor None empty in
  let (it, s2) := saveItem "item" "item" actor (Some parentItem) s1 in
  (parentItem, it, s2).

(** 'Move successfully item to child and delete same membership', lines
    2892-2919: two root items of the actor, each with its membership. *)
Definition twoRoots : Item * Item * Store.t :=
  let (parentItem, s1) := saveItemAndMembership "parent" "parent" actor actor None empty in
  let (it, s2) := saveItemAndMembership "item" "item" actor actor None s1 in
  (parentItem, it, s2).

(** 'Delete successfully one item', lines 2671-2688: an item and a child. *)
Definition itemWithChild : Item * Store.t :=
  let (item1, s1) := saveItemAndMembership "item1" "item1" actor actor None empty in
  let (_, s2) := saveItemAndMembership "child" "child" actor actor (Some item1) s1 in
  (item1, s2).

(** 'Cannot create item if parent is too deep in hierarchy', lines 664-679. *)
Definition deepChain : Item * Store.t :=
  let (parent, s1) := saveItemAndMembership "parent" "parent" actor actor None empty in
  saveUntilMaxDescendants MAX_TREE_LEVELS levelId parent actor s1.

(** That chain, beside a root item of the actor. *)
Definition deepChainAndItem : Store.t :=
  snd (saveItemAndMembership "item" "item" actor actor None (snd deepChain)).

(** A folder with more descendants than a move accepts, beside another folder. *)
Definition largeFolder : Store.t :=
  let (parentItem, s1) := saveItemAndMembership "parent" "parent" actor actor None empty in
  let (other, s2) := saveItemAndMembership "other" "other" actor actor None s1 in
  let (it, s3) := saveItem "item" "item" actor (Some parentItem) s2 in
  snd (saveNbOfItems (S MAX_DESCENDANTS_FOR_MOVE) itemId actor actor (Some it) s3).

(** A folder of another member that the actor can only read, at the deepest
    level, beside a root item of the actor. *)
Definition readOnlyDeepFolder : Store.t :=
  let owner := mkMember "owner" in
  let (parent, s1) := saveItemAndMembership "parent" "parent" owner owner None empty in
  let (deepest, s2) := saveUntilMaxDescendants MAX_TREE_LEVELS levelId parent owner s1 in
  let s3 := Store.mk (items s2) (memberships s2 ++ [mkMembership "actor" (path parent) Read]) in
  snd (saveItemAndMembership "item" "item" actor actor None s3).

End Fixtures.

(** ** The validation phase of [run]

    What [run] decides before it writes: the error it throws, or the item and the
    destination it hands to [moveItem]. *)

Section Validation.

Context {Db : Type} {IS : ItemService Db} {IMS : ItemMembershipService Db}.
Variables (MAX_DESCENDANTS_FOR_MOVE MAX_TREE_LEVELS : nat) (actor : Member).
Variables (targetId : string) (parentItemId : option string).

Definition sameParent (item parentItem : Item) : bool :=
  match parentPathText item with
  | Some pp => String.eqb pp (Path.encode (path parentItem))
  | None => false
  end.

Definition validateMove (d : Db) : GraaspError + (Item * option Item) :=
  match get targetId d with
  | None => inl (ItemNotFound targetId)
  | Some item =>
      if negb (canAdmin actor item d) then inl (UserCannotAdminItem targetId)
      else if MAX_DESCENDANTS_FOR_MOVE <? getNumberOfDescendants item d
      then inl (TooManyDescendants targetId)
      else if truthy parentItemId
      then
        let pid := match parentItemId with Some s => s | None => "" end in
        match get pid d with
        | None => inl (ItemNotFound pid)
        | Some parentItem =>
            if Path.startsWith (path parentItem) (path item) || sameParent item parentItem
            then inl (InvalidMoveTarget (Some pid))
            else if negb (canWrite actor parentItem d)
            then inl (UserCannotWriteItem pid)
            else if MAX_TREE_LEVELS
                    <? Path.depth (path parentItem) + 1
                       + getNumberOfLevelsToFarthestChild item d
            then inl HierarchyTooDeep
            else inr (item, Some parentItem)
        end
      else if hasNoParent item then inl (InvalidMoveTarget None)
      else inr (item, None)
  end.

(** The checks of [run] that come before the depth check all pass. *)
Definition earlierChecksPass (item parentItem : Item) (d : Db) : Prop :=
  canAdmin actor item d = true
  /\ getNumberOfDescendants item d <= MAX_DESCENDANTS_FOR_MOVE
  /\ Path.startsWith (path parentItem) (path item) = false
  /\ sameParent item parentItem = false
  /\ canWrite actor parentItem d = true.

End Validation.

(** ** A sample member directory for the password routes *)

(** A database of members by email, each with an optional password. *)
Definition sampleMembers : list (string * (Member * option string)) :=
  [("ann@graasp.org", (mkMember "ann", None))].

Definition sampleGetByEmail (d : list (string * (Member * option string)))
           (email : string) : option Member :=
  option_map (fun e => fst (snd e)) (find (fun e => String.eqb (fst e) email) d).

Definition sampleValidate (i : string) (d : list (string * (Member * option string)))
  : string + list (string * (Member * option string)) := inr d.

Definition samplePost (m : Member) (d : list (string * (Member * option string)))
           (password : string) : string + list (string * (Member * option string)) :=
  inr (map (fun e => if String.eqb (memberIdOf (fst (snd e))) (memberIdOf m)
                     then (fst e, (fst (snd e), Some password)) else e) d).

(** ** Regular expressions of the [pattern] keyword

    An expression anchored at both ends, as the item schemas use it: [test]
    tells whether the whole text matches, by derivatives.  A character is a
    code unit below 256; [whitespace] is what [\s] matches among them. *)

Module Regex.

Inductive t :=
| Void
| Eps
| Class (p : ascii -> bool)
| Seq (a b : t)
| Alt (a b : t)
| Star (a : t).

Definition Chr (c : ascii) : t := Class (Ascii.eqb c).

(** [a+] *)
Definition Plus (a : t) : t := Seq a (Star a).

Fixpoint nullable (r : t) : bool :=
  match r with
  | Void => false
  | Eps => true
  | Class _ => false
  | Seq a b => nullable a && nullable b
  | Alt a b => nullable a || nullable b
  | Star _ => true
  end.

Fixpoint deriv (c : ascii) (r : t) : t :=
  match r with
  | Void => Void
  | Eps => Void
  | Class p => if p c then Eps else Void
  | Seq a b =>
      if nullable a then Alt (Seq (deriv c a) b) (deriv c b) else Seq (deriv c a) b
  | Alt a b => Alt (deriv c a) (deriv c b)
  | Star a => Seq (deriv c a) (Star a)
  end.

(** [new RegExp('^...$').test(s)] *)
Fixpoint test (r : t) (s : string) : bool :=
  match s with
  | EmptyString => nullable r
  | String c s' => test (deriv c r) s'
  end.

(** [\s]: tab, line feed, vertical tab, form feed, carriage return, space and
    the no-break space. *)
Definition whitespace (c : ascii) : bool :=
  let n := nat_of_ascii c in
  ((9 <=? n) && (n <=? 13)) || (n =? 32) || (n =? 160).

(** [\S] *)
Definition notWhitespace (c : ascii) : bool := negb (whitespace c).

(** The texts of the language of an expression. *)
Inductive Matches : t -> string -> Prop :=
| MEps : Matches Eps ""
| MClass p c : p c = true -> Matches (Class p) (String c "")
| MSeq a b s1 s2 : Matches a s1 -> Matches b s2 -> Matches (Seq a b) (s1 ++ s2)
| MAltL a b s : Matches a s -> Matches (Alt a b) s
| MAltR a b s : Matches b s -> Matches (Alt a b) s
| MStar0 a : Matches (Star a) ""
| MStarS a s1 s2 : Matches a s1 -> Matches (Star a) s2 -> Matches (Star a) (s1 ++ s2).

Fixpoint allChars (p : ascii -> bool) (s : string) : bool :=
  match s with
  | EmptyString => true
  | String c s' => p c && allChars p s'
  end.

End Regex.

(** ** [services/items/fluent-schema.ts]: the schemas of create, update and read *)

Module ItemValidation.

Import Json S.

Definition minLength (n : nat) : Schema -> Schema :=
  withKeyword (fun j => match j with
                        | Str s => n <=? String.length s
                        | _ => true
                        end).

Definition pattern (r : Regex.t) : Schema -> Schema :=
  withKeyword (fun j => match j with
                        | Str s => Regex.test r s
                        | _ => true
                        end).

(** [S.const(v)] for a text [v]. *)
Definition const (v : String.string) : Schema :=
  mkSchema [] false (fun j => match j with Str s => String.eqb s v | _ => false end).

(** [S.required(ks)]: a schema with that keyword alone. *)
Definition requiredOnly (ks : list String.string) : Schema := raw |> required ks.

(** [.anyOf(alts)] on a schema under construction. *)
Definition withAnyOf (alts : list Schema) : Schema -> Schema :=
  withKeyword (fun j => existsb (fun s => validate s j) alts).

(** [S.oneOf(alts)]: exactly one of the schemas accepts the value. *)
Definition oneOf (alts : list Schema) : Schema :=
  mkSchema [] false (fun j => length (filter (fun s => validate s j) alts) =? 1).

(** ['^\\S+( \\S+)*$'] *)
Definition namePattern : Regex.t :=
  Regex.Seq (Regex.Plus (Regex.Class Regex.notWhitespace))
            (Regex.Star (Regex.Seq (Regex.Chr " ")
                                   (Regex.Plus (Regex.Class Regex.notWhitespace)))).

Record RouteSchema := mkRouteSchema {
  params : option Schema;
  querystring : option Schema;
  body : option Schema;
  response : list (nat * Schema)
}.

(** A part of a request (params, querystring or body) is checked against a
    schema when the route gives one. *)
Definition accepts (part : option Schema) (j : Json.t) : bool :=
  match part with
  | Some s => validate s j
  | None => true
  end.

Section Schemas.

(** [util/config] and [schemas/fluent-schema] are not in the sources: the
    limits and the shared schemas are parameters. *)
Variable MAX_TARGETS_FOR_MODIFY_REQUEST : nat.
Variable MAX_TARGETS_FOR_READ_REQUEST : nat.
Variable uuid : Schema.
Variable idParam : Schema.
Variable idsQuery : Schema.
Variable error : Schema.

Local Abbreviation item := (FluentSchema.item uuid).

(** for validation on create, lines 33-39 *)
Definition partialItem : Schema :=
  object
  |> additionalProperties false
  |> prop "name" (string |> minLength 1 |> pattern namePattern)
  |> prop "description" string
  |> prop "type" (const "base")
  |> prop "extra" (object |> additionalProperties false)
  |> required ["name"; "type"; "extra"].

(** for validation on update, lines 45-52 *)
Definition partialItemRequireOne : Schema :=
  object
  |> additionalProperties false
  |> prop "name" (string |> minLength 1 |> pattern namePattern)
  |> prop "description" string
  |> withAnyOf [requiredOnly ["name"]; requiredOnly ["description"]].

(** The ['4xx'] entries of the response maps are left out, as above. *)
Definition create (otherItemSchemas : list Schema) : RouteSchema :=
  mkRouteSchema
    None
    (Some (object |> additionalProperties false |> prop "parentId" uuid))
    (Some (oneOf (partialItem :: otherItemSchemas)))
    [ (201, item) ].

Definition getMany : RouteSchema :=
  mkRouteSchema
    None
    (Some (object
           |> prop "id" (array |> maxItems MAX_TARGETS_FOR_READ_REQUEST)
           |> extend idsQuery))
    None
    [ (200, array |> items (anyOf [error; item])) ].

Definition updateOne : RouteSchema :=
  mkRouteSchema (Some idParam) None (Some partialItemRequireOne) [ (200, item) ].

Definition updateMany : RouteSchema :=
  mkRouteSchema
    None
    (Some (object
           |> prop "id" (array |> maxItems MAX_TARGETS_FOR_MODIFY_REQUEST)
           |> extend idsQuery))
    (Some partialItemRequireOne)
    [ (200, array |> items (anyOf [error; item]));
      (202, array |> items uuid) ].

End Schemas.

End ItemValidation.

(** ** The file service ([FileService], in
    [src/services/auth/plugins/password/test/fixtures/password.ts] from line 38) *)

Module FileRepository.

(** Calls the service sends to its repository, with their arguments (the
    stream of an upload apart). *)
Inductive RepoCall :=
| GetFileSize (filepath : string)
| UploadFile (filepath memberId : string) (mimetype : option string)
| GetFile (filepath id : string)
| GetUrl (expiration : option nat) (filepath id : string)
| DeleteFile (filepath : string)
| DeleteFolder (folderPath : string)
| CopyFile (newId : option string) (memberId originalPath newFilePath : string)
           (mimetype : option string)
| CopyFolder (originalFolderPath newFolderPath : string).

(** [interfaces/fileRepository] is not in the sources: the repository by the
    calls the service makes, over a file store [Fs]; a call either throws an
    error of type [E] or returns, and leaves a store. *)
Class t (Fs E Stream Content : Type) := {
  getFileSize : string -> Fs -> E + nat;
  uploadFile : Stream -> string -> string -> option string -> Fs -> (E + unit) * Fs;
  getFile : string -> string -> Fs -> E + Content;
  getUrl : option nat -> string -> string -> Fs -> E + string;
  deleteFile : string -> Fs -> (E + unit) * Fs;
  deleteFolder : string -> Fs -> (E + unit) * Fs;
  copyFile : option string -> string -> string -> string -> option string
             -> Fs -> (E + string) * Fs;
  copyFolder : string -> string -> Fs -> (E + string) * Fs
}.

End FileRepository.

Module FileService.

Import FileRepository(RepoCall, GetFileSize, UploadFile, GetFile, GetUrl, DeleteFile,
                      DeleteFolder, CopyFile, CopyFolder).

Section Service.

Context {Fs E Stream Content : Type} {repository : FileRepository.t Fs E Stream Content}.

(** The errors of [utils/errors] with the arguments they are built with, and
    an error of the repository that the service lets through. *)
Inductive FileError :=
| UploadFileInvalidParameterError (file : option Stream) (filepath : string)
| UploadFileUnexpectedError (mimetype : option string) (memberId : string)
| DownloadFileInvalidParameterError (filepath id : option string)
| DeleteFileInvalidPathError (filepath : string)
| DeleteFolderInvalidPathError (folderPath : string)
| CopyFileInvalidPathError (filepath : string)
| CopyFolderInvalidPathError (folderPath : string)
| RepositoryError (e : E).

(** The file store, the calls sent to the repository so far, and what was
    given to [logger.error]. *)
Record State := mkState {
  fs : Fs;
  repoCalls : list RepoCall;
  logged : list FileError
}.

Definition Op (A : Type) : Type := State -> (FileError + A) * State.

Definition raise {A} (e : FileError) : Op A := fun st => (inl e, st).

Definition rethrow {A} (r : E + A) : FileError + A :=
  match r with
  | inl e => inl (RepositoryError e)
  | inr a => inr a
  end.

(** A call that reads the store. *)
Definition ask {A} (c : RepoCall) (f : Fs -> E + A) : Op A :=
  fun st => (rethrow (f (fs st)), mkState (fs st) (repoCalls st ++ [c]) (logged st)).

(** A call that may change the store. *)
Definition send {A} (c : RepoCall) (f : Fs -> (E + A) * Fs) : Op A :=
  fun st =>
    let (r, fs') := f (fs st) in
    (rethrow r, mkState fs' (repoCalls st ++ [c]) (logged st)).

Definition logError (e : FileError) (st : State) : State :=
  mkState (fs st) (repoCalls st) (logged st ++ [e]).

Record UploadData := mkUploadData {
  file : option Stream;
  filepath : string;
  mimetype : option string
}.

Record CopyData := mkCopyData {
  newId : option string;
  newFilePath : string;
  originalPath : string;
  copyMimetype : option string
}.

(** [!s.length] *)
Definition isEmpty (s : string) : bool := String.length s =? 0.

(** lines 52-54 *)
Definition getFileSize (actor : Member) (path : string) : Op nat :=
  ask (GetFileSize path) (FileRepository.getFileSize path).

(** lines 120-125 *)
Definition delete (member : Member) (path : string) : Op unit :=
  if isEmpty path then raise (DeleteFileInvalidPathError path)
  else send (DeleteFile path) (FileRepository.deleteFile path).

(** lines 56-81.  The deletion that rolls a failed upload back is started and
    not awaited: whether it fails is not looked at. *)
Definition upload (member : Member) (data : UploadData) : Op UploadData :=
  match file data with
  | Some stream =>
      if truthy (Some (filepath data))
      then
        fun st =>
          match send (UploadFile (filepath data) (memberIdOf member) (mimetype data))
                     (FileRepository.uploadFile stream (filepath data) (memberIdOf member)
                                 (mimetype data)) st with
          | (inr _, st1) => (inr data, st1)
          | (inl e, st1) =>
              let st2 := snd (delete member (filepath data) st1) in
              (inl (UploadFileUnexpectedError (mimetype data) (memberIdOf member)),
               logError e st2)
          end
      else raise (UploadFileInvalidParameterError (file data) (filepath data))
  | None => raise (UploadFileInvalidParameterError (file data) (filepath data))
  end.

(** lines 83-99 *)
Definition getFile (member : Member) (id path : option string) : Op Content :=
  if negb (truthy path) || negb (truthy id)
  then raise (DownloadFileInvalidParameterError path id)
  else
    let p := match path with Some s => s | None => "" end in
    let i := match id with Some s => s | None => "" end in
    ask (GetFile p i) (FileRepository.getFile p i).

(** lines 101-118 *)
Definition getUrl (expiration : option nat) (id path : option string) : Op string :=
  if negb (truthy path) || negb (truthy id)
  then raise (DownloadFileInvalidParameterError path id)
  else
    let p := match path with Some s => s | None => "" end in
    let i := match id with Some s => s | None => "" end in
    ask (GetUrl expiration p i) (FileRepository.getUrl expiration p i).

(** lines 127-133 *)
Definition deleteFolder (member : Member) (folderPath : string) : Op unit :=
  if isEmpty folderPath then raise (DeleteFolderInvalidPathError folderPath)
  else send (DeleteFolder folderPath) (FileRepository.deleteFolder folderPath).

(** lines 135-160 *)
Definition copy (member : Member) (data : CopyData) : Op string :=
  if isEmpty (originalPath data) then raise (CopyFileInvalidPathError (originalPath data))
  else if isEmpty (newFilePath data)
  then raise (CopyFileInvalidPathError (newFilePath data))
  else send (CopyFile (newId data) (memberIdOf member) (originalPath data)
                      (newFilePath data) (copyMimetype data))
            (FileRepository.copyFile (newId data) (memberIdOf member) (originalPath data)
                      (newFilePath data) (copyMimetype data)).

(** lines 162-182 *)
Definition copyFolder (member : Member) (originalFolderPath newFolderPath : string)
  : Op string :=
  if isEmpty originalFolderPath
  then raise (CopyFolderInvalidPathError originalFolderPath)
  else if isEmpty newFolderPath
  then raise (CopyFolderInvalidPathError newFolderPath)
  else send (CopyFolder originalFolderPath newFolderPath)
            (FileRepository.copyFolder originalFolderPath newFolderPath).

End Service.

(** The file and folder paths of a call: every [filepath], [folderPath],
    [originalPath], [newFilePath], [originalFolderPath] and [newFolderPath]. *)
Definition pathsOf (c : RepoCall) : list string :=
  match c with
  | GetFileSize p => [p]
  | UploadFile p _ _ => [p]
  | GetFile p _ => [p]
  | GetUrl _ p _ => [p]
  | DeleteFile p => [p]
  | DeleteFolder p => [p]
  | CopyFile _ _ o n _ => [o; n]
  | CopyFolder o n => [o; n]
  end.

(** The identifiers of a call: every [id], [memberId] and [newId]. *)
Definition identifiersOf (c : RepoCall) : list string :=
  match c with
  | UploadFile _ memberId _ => [memberId]
  | GetFile _ i => [i]
  | GetUrl _ _ i => [i]
  | CopyFile (Some newId) memberId _ _ _ => [newId; memberId]
  | CopyFile None memberId _ _ _ => [memberId]
  | GetFileSize _ | DeleteFile _ | DeleteFolder _ | CopyFolder _ _ => []
  end.

Definition noneEmpty (l : list string) : bool :=
  forallb (fun p => negb (String.eqb p "")) l.

(** No path of the call is the empty text. *)
Definition namesPaths (c : RepoCall) : bool := noneEmpty (pathsOf c).

(** No path and no identifier of the call is the empty text. *)
Definition namesPathsAndIdentifiers (c : RepoCall) : bool :=
  noneEmpty (pathsOf c) && noneEmpty (identifiersOf c).

End FileService.

(** Whatever the state, the calls that an operation of the service adds for its
    repository all pass the test. *)
Definition sendsOnly {Fs E Stream A : Type} (test : FileRepository.RepoCall -> bool)
           (op : @FileService.Op Fs E Stream A) : Prop :=
  forall st, exists new,
    FileService.repoCalls (snd (op st)) = FileService.repoCalls st ++ new
    /\ forallb test new = true.

(** ** [POST /password/reset] ([src/unnamed/part_001], lines 156-188) *)

Module PasswordReset.

Inductive ActionTriggers := AskResetPassword | ResetPassword.

(** What the handler does that can be seen from outside, in order. *)
Inductive Event (Mem : Type) :=
| ReplyStatus (code : nat)
| ReplySend
| CreateResetPasswordRequest (email : string)
| MailResetPasswordRequest (email token lang : string)
| PostAction (member : Mem) (type : ActionTriggers).

Arguments ReplyStatus {Mem} code.
Arguments ReplySend {Mem}.
Arguments CreateResetPasswordRequest {Mem} email.
Arguments MailResetPasswordRequest {Mem} email token lang.
Arguments PostAction {Mem} member type.

Section Plugin.

(** [memberPasswordService.createResetPasswordRequest] throws, or gives nothing,
    or a token and the member. *)
Context {Db E Mem : Type}.
Variable createResetPasswordRequest : Db -> string -> E + option (string * Mem).
Variable lang : Mem -> string.

Definition postPasswordReset (email : string) (repositories : Db)
  : (E + unit) * list (Event Mem) :=
  let early := [ReplyStatus Password.StatusCodes.NO_CONTENT; ReplySend;
                CreateResetPasswordRequest email] in
  match createResetPasswordRequest repositories email with
  | inl e => (inl e, early)
  | inr None => (inr tt, early)
  | inr (Some (token, member)) =>
      (inr tt,
       early ++ [MailResetPasswordRequest email token (lang member);
                 PostAction member AskResetPassword])
  end.

End Plugin.

(** The events that reach the client. *)
Definition isReply {Mem} (e : Event Mem) : bool :=
  match e with
  | ReplyStatus _ | ReplySend => true
  | _ => false
  end.

End PasswordReset.

(** ** Statements about names and bodies *)

(** A word: a text that is not empty and holds no whitespace. *)
Definition isWord (w : string) : Prop :=
  w <> "" /\ Regex.allChars Regex.notWhitespace w = true.

(** One word or more, joined by single spaces. *)
Definition isSpacedWords (s : string) : Prop :=
  exists w ws, Forall isWord (w :: ws) /\ s = String.concat " " (w :: ws).

(** Words, each after a space. *)
Definition spaced (ws : list string) : string :=
  fold_right (fun w acc => (" " ++ w ++ acc)%string) "" ws.

(** The property [k], when the object has it, is a text that satisfies [P]. *)
Definition textIfPresent (k : string) (P : string -> Prop)
           (fields : list (string * Json.t)) : Prop :=
  match Json.lookup k fields with
  | Some v => exists s, v = Json.Str s /\ P s
  | None => True
  end.

Definition present (k : string) (fields : list (string * Json.t)) : Prop :=
  exists v, Json.lookup k fields = Some v.

(** ** Samples for the file service and the password routes *)

Module Samples.

Import Store Fixtures.

(** Two root folders of the actor; the identifier of the second extends the
    identifier of the first. *)
Definition extendingSibling : Store.t :=
  let (_, s1) := saveItemAndMembership "item" "item" actor actor None empty in
  snd (saveItemAndMembership "item2" "item2" actor actor None s1).

(** A repository that keeps the paths of its files and refuses to write over
    a file. *)
#[export] Instance pathsRepository : FileRepository.t (list string) string unit unit := {
  getFileSize p files := if existsb (String.eqb p) files then inr 1 else inl "missing";
  uploadFile _ p _ _ files :=
    if existsb (String.eqb p) files then (inl "exists", files) else (inr tt, p :: files);
  getFile p _ files := if existsb (String.eqb p) files then inr tt else inl "missing";
  getUrl _ p _ files :=
    if existsb (String.eqb p) files then inr ("/" ++ p)%string else inl "missing";
  deleteFile p files := (inr tt, filter (fun q => negb (String.eqb p q)) files);
  deleteFolder p files :=
    (inr tt, filter (fun q => negb (String.prefix p q)) files);
  copyFile _ _ o n _ files :=
    if existsb (String.eqb o) files then (inr n, n :: files) else (inl "missing", files);
  copyFolder o n files := (inr n, files)
}.

(** A member directory whose members cannot set a password twice. *)
Definition postOnce (m : Member) (d : list (string * (Member * option string)))
           (password : string) : string + list (string * (Member * option string)) :=
  if existsb (fun e => String.eqb (memberIdOf (fst (snd e))) (memberIdOf m)
                       && match snd (snd e) with Some _ => true | None => false end) d
  then inl "conflict"
  else samplePost m d password.

(** A reset service over that directory: members with a password get a token. *)
Definition sampleCreateReset (d : list (string * (Member * option string)))
           (email : string) : string + option (string * Member) :=
  match find (fun e => String.eqb (fst e) email) d with
  | Some (_, (m, Some _)) => inr (Some (("token-" ++ memberIdOf m)%string, m))
  | _ => inr None
  end.

End Samples.

(** * Properties *)

(** ** Path texts *)

Lemma prefix_append (s r : string) : String.prefix s (s ++ r) = true.
Proof.
  induction s as [|c s IH]; simpl.
  - destruct r; reflexivity.
  - destruct (Ascii.ascii_dec c c) as [_|ne]; [exact IH | contradiction].
Qed.

Lemma isPrefix_app (a b : Path.t) :
  Path.isPrefix a b = true <-> exists r, b = a ++ r.
Proof.
  revert b; induction a as [|x a IH]; intros b; simpl.
  - split; [intros _; exists b; reflexivity | reflexivity].
  - destruct b as [|y b].
    + split; [discriminate | intros [r Hr]; discriminate].
    + rewrite andb_true_iff, String.eqb_eq, IH. split.
      * intros [-> [r ->]]. exists r. reflexivity.
      * intros [r Hr]. injection Hr as -> ->. split; [reflexivity | exists r; reflexivity].
Qed.

Lemma isPrefix_refl (a : Path.t) : Path.isPrefix a a = true.
Proof. apply isPrefix_app. exists []. symmetry. apply app_nil_r. Qed.

Lemma encode_cons (x : string) (p : Path.t) :
  Path.encode (x :: p)
  = (x ++ match p with [] => "" | _ :: _ => "." ++ Path.encode p end)%string.
Proof.
  destruct p; simpl; [|reflexivity].
  induction x as [|c x IH]; simpl; [reflexivity | f_equal; exact IH].
Qed.

Lemma append_assoc (a b c : string) : ((a ++ b) ++ c = a ++ (b ++ c))%string.
Proof. induction a as [|x a IH]; simpl; [reflexivity | f_equal; exact IH]. Qed.

Lemma encode_app (a r : Path.t) :
  exists tail, Path.encode (a ++ r) = (Path.encode a ++ tail)%string.
Proof.
  induction a as [|x a IH]; simpl app.
  - exists (Path.encode r). reflexivity.
  - destruct IH as [tail IH]. rewrite !encode_cons.
    destruct a as [|y a].
    + simpl app. destruct r as [|z r].
      * exists "". rewrite append_assoc. reflexivity.
      * exists ("." ++ Path.encode (z :: r))%string.
        rewrite append_assoc. reflexivity.
    + simpl app in *. rewrite IH. exists tail.
      rewrite !append_assoc. reflexivity.
Qed.

(** A path below (or equal to) another has a text that starts with its text. *)
Lemma startsWith_of_isPrefix (a b : Path.t) :
  Path.isPrefix a b = true -> Path.startsWith b a = true.
Proof.
  intros H. apply isPrefix_app in H as [r ->].
  unfold Path.startsWith. destruct (encode_app a r) as [tail ->].
  apply prefix_append.
Qed.

Lemma path_eqb_eq (a b : Path.t) : Path.eqb a b = true <-> a = b.
Proof.
  unfold Path.eqb. destruct (list_eq_dec string_dec a b); split; congruence.
Qed.

Lemma path_eqb_refl (a : Path.t) : Path.eqb a a = true.
Proof. apply path_eqb_eq. reflexivity. Qed.

(** ** The move task, for any services *)

Section MoveTaskProperties.

Context {Db : Type} {IS : ItemService Db} {IMS : ItemMembershipService Db}.
Variables (maxDescendants maxLevels : nat) (actor : Member).
Variables (targetId : string) (parentItemId : option string).

Local Abbreviation runTask := (run maxDescendants maxLevels actor targetId parentItemId).

Ltac step := unfold bind, query, exec, setStatus, setMessage, throw, ret; simpl.

Lemma moveItem_spelled (item : Item) (parentItem : option Item) (w : World Db) :
  let hk := moveHousekeeping item actor parentItem (db w) in
  moveItem actor item parentItem w
  = (inr tt,
     mkWorld (applyDeletes hk (applyInserts hk (move item parentItem (db w))))
             (calls w
                ++ [CallMoveHousekeeping (id item) (optId parentItem);
                    CallMove (id item) (optId parentItem)]
                ++ insertCalls hk ++ deleteCalls hk)
             (status w) (message w)).
Proof.
  intros hk. unfold moveItem, applyDeletes, applyInserts, insertCalls, deleteCalls.
  step. fold hk.
  destruct (inserts hk) as [|i ins]; destruct (deletes hk) as [|k ks]; step;
    repeat rewrite <- app_assoc; simpl; try rewrite app_nil_r; reflexivity.
Qed.

(** Every failure of [run] happens before the first write. *)
Lemma run_failure_keeps_db (w : World Db) (e : GraaspError) :
  fst (runTask w) = inl e -> db (snd (runTask w)) = db w.
Proof.
  unfold run. step.
  destruct (get targetId (db w)) as [item|]; step; [|reflexivity].
  destruct (canAdmin actor item (db w)); step; [|reflexivity].
  destruct (maxDescendants <? getNumberOfDescendants item (db w)); step; [reflexivity|].
  destruct (truthy parentItemId).
  - unfold attachTo. step.
    destruct (get _ (db w)) as [parentItem|]; step; [|reflexivity].
    destruct (_ || _); step; [reflexivity|].
    destruct (canWrite actor parentItem (db w)); step; [|reflexivity].
    destruct (maxLevels <? _); step; [reflexivity|].
    rewrite moveItem_spelled. step. discriminate.
  - destruct (hasNoParent item); step; [reflexivity|].
    rewrite moveItem_spelled. step. discriminate.
Qed.

(** C3, as the code has it.  A move whose destination is the item itself, one of
    its descendants, or the parent it already has (the root for a root item) is
    always refused and leaves the database as it was.  The error is
    [InvalidMoveTarget] when the two checks that come first pass (the actor
    administers the item and it has at most [MAX_DESCENDANTS_FOR_MOVE]
    descendants); otherwise it is the error of the first of those checks that
    fails, [UserCannotAdminItem] or [TooManyDescendants]. *)
Theorem move_noop_or_cycle_is_refused
  (w : World Db) (item : Item) (parentItem : option Item) :
  get targetId (db w) = Some item ->
  destinationIs parentItemId (db w) parentItem ->
  noopOrCycle item parentItem ->
  db (snd (runTask w)) = db w
  /\ (fst (runTask w) = inl (UserCannotAdminItem targetId)
      \/ fst (runTask w) = inl (TooManyDescendants targetId)
      \/ fst (runTask w) = inl (InvalidMoveTarget (invalidTarget parentItemId)))
  /\ (canAdmin actor item (db w) = true ->
      getNumberOfDescendants item (db w) <= maxDescendants ->
      fst (runTask w) = inl (InvalidMoveTarget (invalidTarget parentItemId))).
Proof.
  intros Hitem Hdest Hnoop.
  assert (Hmain :
    (canAdmin actor item (db w) = false
     /\ fst (runTask w) = inl (UserCannotAdminItem targetId))
    \/ (maxDescendants < getNumberOfDescendants item (db w)
        /\ fst (runTask w) = inl (TooManyDescendants targetId))
    \/ fst (runTask w) = inl (InvalidMoveTarget (invalidTarget parentItemId))).
  { unfold run. step. rewrite Hitem. step.
    destruct (canAdmin actor item (db w)); step; [|left; split; reflexivity].
    destruct (maxDescendants <? getNumberOfDescendants item (db w)) eqn:Hn; step;
      [right; left; split; [apply Nat.ltb_lt; exact Hn | reflexivity]|].
    right; right. unfold invalidTarget.
    destruct parentItem as [p|]; simpl in Hdest, Hnoop.
    - destruct Hdest as (pid & -> & Hpid & Hget). simpl.
      apply String.eqb_neq in Hpid. rewrite Hpid. simpl.
      unfold attachTo. step. rewrite Hget. step.
      assert (Htest : Path.startsWith (path p) (path item)
                      || match parentPathText item with
                         | Some pp => String.eqb pp (Path.encode (path p))
                         | None => false
                         end = true).
      { destruct Hnoop as [Hpre | Hpar].
        - rewrite (startsWith_of_isPrefix _ _ Hpre). reflexivity.
        - unfold parentPathText. rewrite Hpar. simpl.
          rewrite String.eqb_refl. apply orb_true_r. }
      rewrite Htest. reflexivity.
    - rewrite Hdest. unfold hasNoParent, parentPathText. rewrite Hnoop. reflexivity. }
  split; [|split].
  - destruct Hmain as [[_ H] | [[_ H] | H]]; exact (run_failure_keeps_db w _ H).
  - destruct Hmain as [[_ H] | [[_ H] | H]]; auto.
  - intros Hadmin Hcount.
    destruct Hmain as [[H _] | [[H _] | H]]; [congruence | lia | exact H].
Qed.

(** C5, as the code has it.  A move fails only with [ItemNotFound],
    [UserCannotAdminItem], [UserCannotWriteItem], [InvalidMoveTarget],
    [HierarchyTooDeep] or [TooManyDescendants]. *)
Theorem move_fails_only_with_listed_errors (w : World Db) :
  match fst (runTask w) with
  | inl e =>
      In (errorName e)
         ["ItemNotFound"; "UserCannotAdminItem"; "UserCannotWriteItem";
          "InvalidMoveTarget"; "HierarchyTooDeep"; "TooManyDescendants"]
  | inr _ => True
  end.
Proof.
  unfold run. step.
  destruct (get targetId (db w)) as [item|]; step; [|tauto].
  destruct (canAdmin actor item (db w)); step; [|tauto].
  destruct (maxDescendants <? getNumberOfDescendants item (db w)); step; [tauto|].
  destruct (truthy parentItemId).
  - unfold attachTo. step.
    destruct (get _ (db w)) as [parentItem|]; step; [|tauto].
    destruct (_ || _); step; [tauto|].
    destruct (canWrite actor parentItem (db w)); step; [|tauto].
    destruct (maxLevels <? _); step; [tauto|].
    rewrite moveItem_spelled. step. exact I.
  - destruct (hasNoParent item); step; [tauto|].
    rewrite moveItem_spelled. step. exact I.
Qed.

(** C4.  In every successful move the task first only reads; it then asks for the
    membership housekeeping, which is computed on the database as it was before
    the move (the reads change nothing), then rewrites the paths, and only then
    creates the inserts and after them removes the deletes (each statement sent
    when its list is not empty). *)
Theorem housekeeping_then_move_then_inserts_then_deletes (w w' : World Db) :
  runTask w = (inr tt, w') ->
  exists (item : Item) (parentItem : option Item) (reads : list Call),
    get targetId (db w) = Some item
    /\ forallb isRead reads = true
    /\ calls w'
       = calls w ++ reads
         ++ [CallMoveHousekeeping (id item) (optId parentItem);
             CallMove (id item) (optId parentItem)]
         ++ insertCalls (moveHousekeeping item actor parentItem (db w))
         ++ deleteCalls (moveHousekeeping item actor parentItem (db w))
    /\ db w'
       = applyDeletes (moveHousekeeping item actor parentItem (db w))
           (applyInserts (moveHousekeeping item actor parentItem (db w))
              (move item parentItem (db w))).
Proof.
  unfold run. step.
  destruct (get targetId (db w)) as [item|] eqn:Hitem; step; [|discriminate].
  destruct (canAdmin actor item (db w)); step; [|discriminate].
  destruct (maxDescendants <? getNumberOfDescendants item (db w)); step; [discriminate|].
  destruct (truthy parentItemId).
  - unfold attachTo. step.
    destruct (get (match parentItemId with Some s => s | None => "" end) (db w))
      as [parentItem|]; step; [|discriminate].
    destruct (_ || _); step; [discriminate|].
    destruct (canWrite actor parentItem (db w)); step; [|discriminate].
    destruct (maxLevels <? _); step; [discriminate|].
    rewrite moveItem_spelled. step. intros H. injection H as <-. simpl.
    exists item, (Some parentItem),
      [CallGet targetId; CallCanAdmin (id item); CallGetNumberOfDescendants (id item);
       CallGet (match parentItemId with Some s => s | None => "" end);
       CallCanWrite (id parentItem);
       CallGetNumberOfLevelsToFarthestChild (id item)].
    repeat split. repeat rewrite <- app_assoc. reflexivity.
  - destruct (hasNoParent item); step; [discriminate|].
    rewrite moveItem_spelled. step. intros H. injection H as <-. simpl.
    exists item, None,
      [CallGet targetId; CallCanAdmin (id item); CallGetNumberOfDescendants (id item)].
    repeat split. repeat rewrite <- app_assoc. reflexivity.
Qed.

End MoveTaskProperties.

(** ** The move task on the store *)

Section MoveOnStore.

Import Store Planner Fixtures.

Local Abbreviation runOn s target parent :=
  (run MAX_DESCENDANTS_FOR_MOVE MAX_TREE_LEVELS actor target parent
       (mkWorld s [] NEW None)).

(** An instance of [move_noop_or_cycle_is_refused]: the item saved under the
    actor's folder is moved to that same folder. *)
Lemma move_noop_or_cycle_is_refused_witness :
  let s := snd inheritedItem in
  let item := snd (fst inheritedItem) in
  let parentItem := fst (fst inheritedItem) in
  (get "item" s = Some item
   /\ destinationIs (Some "parent") s (Some parentItem)
   /\ noopOrCycle item (Some parentItem))
  /\ db (snd (runOn s "item" (Some "parent"))) = s
  /\ fst (runOn s "item" (Some "parent")) = inl (InvalidMoveTarget (Some "parent")).
Proof.
  intros s item parentItem.
  assert (Hitem : get "item" s = Some item) by reflexivity.
  assert (Hdest : destinationIs (Some "parent") s (Some parentItem)).
  { exists "parent". repeat split. discriminate. }
  assert (Hnoop : noopOrCycle item (Some parentItem)) by (right; reflexivity).
  destruct (move_noop_or_cycle_is_refused
              MAX_DESCENDANTS_FOR_MOVE MAX_TREE_LEVELS actor "item" (Some "parent")
              (mkWorld s [] NEW None) item (Some parentItem) Hitem Hdest Hnoop)
    as (Hdb & _ & Herr).
  split; [split; [exact Hitem | split; [exact Hdest | exact Hnoop]] |].
  split; [exact Hdb |].
  apply Herr; [reflexivity | vm_compute; lia].
Defined.

(** C3 as stated fails: a folder with sixteen descendants, moved by its
    administrator to the parent it already has, is refused with
    [TooManyDescendants], not with [InvalidMoveTarget]. *)
Lemma move_to_current_parent_counterexample :
  Path.parentPath (path (mkItem "item" "item" "folder" ["parent"; "item"] "actor"))
  = Some (path (mkItem "parent" "parent" "folder" ["parent"] "actor"))
  /\ getItem "item" largeFolder
     = Some (mkItem "item" "item" "folder" ["parent"; "item"] "actor")
  /\ getItem "parent" largeFolder
     = Some (mkItem "parent" "parent" "folder" ["parent"] "actor")
  /\ fst (runOn largeFolder "item" (Some "parent")) = inl (TooManyDescendants "item")
  /\ fst (runOn largeFolder "item" (Some "parent"))
     <> inl (InvalidMoveTarget (Some "parent")).
Proof.
  repeat split; try reflexivity.
  vm_compute. discriminate.
Qed.

(** C5 as stated fails: moving that folder to another folder of the actor fails
    with [TooManyDescendants], which is none of the five listed errors. *)
Lemma move_error_not_listed_counterexample :
  fst (runOn largeFolder "item" (Some "other")) = inl (TooManyDescendants "item")
  /\ ~ In (errorName (TooManyDescendants "item"))
          ["ItemNotFound"; "UserCannotAdminItem"; "UserCannotWriteItem";
           "InvalidMoveTarget"; "HierarchyTooDeep"].
Proof.
  split; [reflexivity|].
  simpl. intros H. repeat (destruct H as [H|H]; [discriminate H|]). exact H.
Qed.

(** An instance of [housekeeping_then_move_then_inserts_then_deletes]: the item
    with inherited access is moved to the root. *)
Lemma housekeeping_then_move_then_inserts_then_deletes_witness :
  let s := snd inheritedItem in
  let w := mkWorld s [] NEW None in
  let w' := snd (runOn s "item" None) in
  runOn s "item" None = (inr tt, w')
  /\ calls w'
     = [CallGet "item"; CallCanAdmin "item"; CallGetNumberOfDescendants "item";
        CallMoveHousekeeping "item" None; CallMove "item" None;
        CallCreateMany [mkMembership "actor" ["item"] Admin]].
Proof.
  intros s w w'.
  assert (Hrun : runOn s "item" None = (inr tt, w')) by reflexivity.
  split; [exact Hrun|].
  destruct (housekeeping_then_move_then_inserts_then_deletes
              MAX_DESCENDANTS_FOR_MOVE MAX_TREE_LEVELS actor "item" None w w' Hrun)
    as (item & parentItem & reads & _ & _ & _ & _).
  reflexivity.
Defined.

End MoveOnStore.

(** ** [run] is the validation followed by [moveItem] *)

Section MoveTaskPhases.

Context {Db : Type} {IS : ItemService Db} {IMS : ItemMembershipService Db}.
Variables (maxDescendants maxLevels : nat) (actor : Member).
Variables (targetId : string) (parentItemId : option string).

Local Abbreviation runTask := (run maxDescendants maxLevels actor targetId parentItemId).
Local Abbreviation validated :=
  (validateMove maxDescendants maxLevels actor targetId parentItemId).

Ltac step := unfold bind, query, exec, setStatus, setMessage, throw, ret; simpl.

Lemma run_phases (w : World Db) :
  match validated (db w) with
  | inl e => fst (runTask w) = inl e /\ db (snd (runTask w)) = db w
  | inr (item, parentItem) =>
      fst (runTask w) = inr tt
      /\ db (snd (runTask w))
         = applyDeletes (moveHousekeeping item actor parentItem (db w))
             (applyInserts (moveHousekeeping item actor parentItem (db w))
                (move item parentItem (db w)))
  end.
Proof.
  unfold validateMove, run. step.
  destruct (get targetId (db w)) as [item|]; step; [|split; reflexivity].
  destruct (canAdmin actor item (db w)); step; [|split; reflexivity].
  destruct (maxDescendants <? getNumberOfDescendants item (db w)); step;
    [split; reflexivity|].
  destruct (truthy parentItemId).
  - unfold attachTo. step.
    destruct (get (match parentItemId with Some s => s | None => "" end) (db w))
      as [parentItem|]; step; [|split; reflexivity].
    unfold sameParent.
    destruct (_ || _); step; [split; reflexivity|].
    destruct (canWrite actor parentItem (db w)); step; [|split; reflexivity].
    destruct (maxLevels <? _); step; [split; reflexivity|].
    rewrite moveItem_spelled. step. split; reflexivity.
  - destruct (hasNoParent item); step; [split; reflexivity|].
    rewrite moveItem_spelled. step. split; reflexivity.
Qed.

Lemma validated_parent (d : Db) (item parentItem : Item) :
  validated d = inr (item, Some parentItem) ->
  get targetId d = Some item
  /\ Path.depth (path parentItem) + 1 + getNumberOfLevelsToFarthestChild item d
     <= maxLevels.
Proof.
  unfold validateMove.
  destruct (get targetId d) as [it|]; [|discriminate].
  destruct (negb _); [discriminate|].
  destruct (maxDescendants <? _); [discriminate|].
  destruct (truthy parentItemId).
  - destruct (get _ d) as [p|]; [|discriminate].
    destruct (_ || _); [discriminate|].
    destruct (negb _); [discriminate|].
    destruct (maxLevels <? _) eqn:Hdepth; [discriminate|].
    intros H. injection H as -> ->. split; [reflexivity|].
    apply Nat.ltb_ge in Hdepth. exact Hdepth.
  - destruct (hasNoParent it); discriminate.
Qed.

Lemma validated_too_deep (d : Db) (item parentItem : Item) (pid : string) :
  get targetId d = Some item ->
  parentItemId = Some pid -> pid <> "" ->
  get pid d = Some parentItem ->
  maxLevels < Path.depth (path parentItem) + 1 + getNumberOfLevelsToFarthestChild item d ->
  (exists e, validated d = inl e)
  /\ (earlierChecksPass maxDescendants actor item parentItem d ->
      validated d = inl HierarchyTooDeep).
Proof.
  intros Hitem -> Hpid Hparent Hdeep.
  apply Nat.ltb_lt in Hdeep. apply String.eqb_neq in Hpid.
  unfold validateMove. rewrite Hitem. simpl. rewrite Hpid. simpl. rewrite Hparent, Hdeep.
  split.
  - destruct (negb (canAdmin _ _ _)); [eexists; reflexivity|].
    destruct (maxDescendants <? _); [eexists; reflexivity|].
    destruct (_ || _); [eexists; reflexivity|].
    destruct (negb (canWrite _ _ _)); eexists; reflexivity.
  - intros (Hadmin & Hcount & Hstart & Hsame & Hwrite).
    apply Nat.ltb_ge in Hcount.
    rewrite Hadmin, Hcount, Hstart, Hsame, Hwrite. reflexivity.
Qed.

(** The error of a move into an existing parent, by the first check of [run]
    that fails before the depth check. *)
Lemma validated_first_failure (d : Db) (item parentItem : Item) (pid : string) :
  get targetId d = Some item ->
  parentItemId = Some pid -> pid <> "" ->
  get pid d = Some parentItem ->
  (canAdmin actor item d = false -> validated d = inl (UserCannotAdminItem targetId))
  /\ (canAdmin actor item d = true ->
      maxDescendants < getNumberOfDescendants item d ->
      validated d = inl (TooManyDescendants targetId))
  /\ (canAdmin actor item d = true ->
      getNumberOfDescendants item d <= maxDescendants ->
      Path.startsWith (path parentItem) (path item) = true
      \/ sameParent item parentItem = true ->
      validated d = inl (InvalidMoveTarget (Some pid)))
  /\ (canAdmin actor item d = true ->
      getNumberOfDescendants item d <= maxDescendants ->
      Path.startsWith (path parentItem) (path item) = false ->
      sameParent item parentItem = false ->
      canWrite actor parentItem d = false ->
      validated d = inl (UserCannotWriteItem pid)).
Proof.
  intros Hitem -> Hpid Hparent. apply String.eqb_neq in Hpid.
  unfold validateMove. rewrite Hitem. simpl. rewrite Hpid. simpl. rewrite Hparent.
  split; [|split; [|split]].
  - intros ->. reflexivity.
  - intros -> Hcount. apply Nat.ltb_lt in Hcount. rewrite Hcount. reflexivity.
  - intros -> Hcount Htarget. apply Nat.ltb_ge in Hcount. rewrite Hcount. simpl.
    assert (Hor : Path.startsWith (path parentItem) (path item)
                  || sameParent item parentItem = true)
      by (apply orb_true_iff; exact Htarget).
    rewrite Hor. reflexivity.
  - intros -> Hcount -> -> ->. apply Nat.ltb_ge in Hcount. rewrite Hcount. reflexivity.
Qed.

End MoveTaskPhases.

(** ** Depth of the tree *)

Section DepthBound.

Import Store Planner.

Lemma fold_max_ge (l : list nat) (x : nat) : In x l -> x <= fold_right Nat.max 0 l.
Proof.
  induction l as [|y l IH]; simpl; [contradiction|].
  intros [-> | H]; [lia | specialize (IH H); lia].
Qed.

Lemma levels_bound (item it : Item) (s : Store.t) :
  In it (items s) ->
  strictlyBelow (path item) (path it) = true ->
  Path.depth (path it) - Path.depth (path item) <= levelsToFarthestChild item s.
Proof.
  intros Hin Hbelow. unfold levelsToFarthestChild. apply fold_max_ge.
  apply (in_map (fun it0 => Path.depth (path it0) - Path.depth (path item))).
  unfold descendants. apply filter_In. split; assumption.
Qed.

Lemma isPrefix_length (a b : Path.t) : Path.isPrefix a b = true -> length a <= length b.
Proof.
  intros H. apply isPrefix_app in H as [r ->]. rewrite length_app. lia.
Qed.

Lemma selfLabel_length (p : Path.t) :
  length (selfLabel p) <= 1 /\ length (selfLabel p) <= length p.
Proof. unfold selfLabel. rewrite length_skipn. lia. Qed.

Lemma rewrite_length (before after p : Path.t) :
  length (rewrite before after p)
  = if Path.isPrefix before p then length after + (length p - length before)
    else length p.
Proof.
  unfold rewrite. destruct (Path.isPrefix before p); [|reflexivity].
  rewrite length_app, length_skipn. reflexivity.
Qed.

(** Rewriting the paths keeps the depth bound when the destination leaves room
    for the subtree. *)
Lemma movePaths_depthBounded (maxLevels : nat) (item : Item) (parentItem : option Item)
      (s : Store.t) :
  depthBounded maxLevels s ->
  match parentItem with
  | Some p => Path.depth (path p) + 1 + levelsToFarthestChild item s <= maxLevels
  | None => True
  end ->
  depthBounded maxLevels (movePaths item parentItem s).
Proof.
  intros Hs Hroom it' Hin. unfold movePaths in Hin. simpl in Hin.
  apply in_map_iff in Hin as (it & <- & Hin). simpl.
  unfold Path.depth. rewrite rewrite_length.
  destruct (Path.isPrefix (path item) (path it)) eqn:Hpre; [|exact (Hs it Hin)].
  pose proof (isPrefix_length _ _ Hpre) as Hlen.
  pose proof (selfLabel_length (path item)) as [Hone Hself].
  unfold pathAfter. rewrite length_app.
  destruct parentItem as [p|]; simpl.
  - destruct (Path.eqb (path it) (path item)) eqn:Heq.
    + apply path_eqb_eq in Heq. rewrite Heq. unfold Path.depth in Hroom. lia.
    + assert (Hbelow : strictlyBelow (path item) (path it) = true).
      { unfold strictlyBelow. rewrite Hpre, Heq. reflexivity. }
      pose proof (levels_bound item it s Hin Hbelow) as Hlv.
      unfold Path.depth in *. lia.
  - specialize (Hs it Hin). unfold Path.depth in Hs. lia.
Qed.

Lemma items_applyInserts (hk : Housekeeping) (s : Store.t) :
  items (applyInserts hk s) = items s.
Proof. unfold applyInserts. destruct (inserts hk); reflexivity. Qed.

Lemma items_applyDeletes (hk : Housekeeping) (s : Store.t) :
  items (applyDeletes hk s) = items s.
Proof. unfold applyDeletes. destruct (deletes hk); reflexivity. Qed.

Lemma moveTask_phases (maxDescendants maxLevels : nat) (actor : Member)
      (parentItemId : option string) (targetId : string) (s : Store.t) :
  match validateMove maxDescendants maxLevels actor targetId parentItemId s with
  | inl e =>
      moveTask maxDescendants maxLevels actor parentItemId targetId s = (inl e, s)
  | inr (item, parentItem) =>
      moveTask maxDescendants maxLevels actor parentItemId targetId s
      = (inr tt,
         applyDeletes (computeMoveHousekeeping item actor parentItem s)
           (applyInserts (computeMoveHousekeeping item actor parentItem s)
              (movePaths item parentItem s)))
  end.
Proof.
  pose proof (run_phases maxDescendants maxLevels actor targetId parentItemId
                         (mkWorld s [] NEW None)) as H.
  simpl in H. unfold moveTask.
  destruct (validateMove _ _ _ _ _ s) as [e | [item parentItem]];
    destruct H as [-> ->]; reflexivity.
Qed.

Lemma moveTask_depthBounded (maxDescendants maxLevels : nat) (actor : Member)
      (parentItemId : option string) (targetId : string) (s : Store.t) :
  depthBounded maxLevels s ->
  depthBounded maxLevels
    (snd (moveTask maxDescendants maxLevels actor parentItemId targetId s)).
Proof.
  intros Hs.
  pose proof (moveTask_phases maxDescendants maxLevels actor parentItemId targetId s) as H.
  destruct (validateMove _ _ _ _ _ s) as [e | [item parentItem]] eqn:Hv;
    rewrite H; simpl; [exact Hs|].
  intros it. rewrite items_applyDeletes, items_applyInserts.
  apply movePaths_depthBounded; [exact Hs|].
  destruct parentItem as [p|]; [|exact I].
  apply (validated_parent _ _ _ _ _ _ _ _ Hv).
Qed.

Lemma insertItem_depthBounded (maxLevels maxChildren : nat) (actor : Member)
      (newId newName newType : string) (parentItem : option Item) (s : Store.t) :
  depthBounded maxLevels s ->
  depthBounded maxLevels
    (snd (insertItem maxLevels maxChildren actor newId newName newType parentItem s)).
Proof.
  intros Hs. unfold insertItem, assertDepthAllowed. simpl path.
  destruct (maxLevels <? _) eqn:Hd; simpl; [exact Hs|].
  destruct (match parentItem with Some _ => _ | None => false end); simpl; [exact Hs|].
  intros it Hin. simpl in Hin. apply in_app_or in Hin as [Hin | [<- | []]].
  - exact (Hs it Hin).
  - simpl. apply Nat.ltb_ge in Hd. exact Hd.
Qed.

Lemma createItem_depthBounded (maxLevels maxChildren : nat) (actor : Member)
      (newId newName newType : string) (parentId : option string) (s : Store.t) :
  depthBounded maxLevels s ->
  depthBounded maxLevels
    (snd (createItem maxLevels maxChildren actor newId newName newType parentId s)).
Proof.
  intros Hs. unfold createItem.
  destruct parentId as [pid|]; [|apply insertItem_depthBounded; exact Hs].
  destruct (getItem pid s) as [p|]; simpl; [|exact Hs].
  destruct (negb (canWriteItem actor p s)); simpl; [exact Hs|].
  destruct (negb (type_ p =? "folder")%string); simpl; [exact Hs|].
  apply insertItem_depthBounded; exact Hs.
Qed.

(** A create under a parent that already sits at the deepest level. *)
Lemma createItem_too_deep (maxLevels maxChildren : nat) (actor : Member)
      (newId newName newType pid : string) (parentItem : Item) (s : Store.t) :
  getItem pid s = Some parentItem ->
  maxLevels <= Path.depth (path parentItem) ->
  snd (createItem maxLevels maxChildren actor newId newName newType (Some pid) s) = s
  /\ (exists e,
        fst (createItem maxLevels maxChildren actor newId newName newType (Some pid) s)
        = inl e)
  /\ (canWriteItem actor parentItem s = true ->
      type_ parentItem = "folder" ->
      fst (createItem maxLevels maxChildren actor newId newName newType (Some pid) s)
      = inl HierarchyTooDeep).
Proof.
  intros Hparent Hdeep. unfold createItem. rewrite Hparent.
  assert (Hins : insertItem maxLevels maxChildren actor newId newName newType
                            (Some parentItem) s = (inl HierarchyTooDeep, s)).
  { unfold insertItem, assertDepthAllowed. simpl path.
    assert (Hlt : (maxLevels <? Path.depth (path parentItem ++ [newId])) = true).
    { apply Nat.ltb_lt. unfold Path.depth in *. rewrite length_app. simpl. lia. }
    simpl parentPathOf. rewrite Hlt. reflexivity. }
  split; [|split].
  - destruct (negb (canWriteItem actor parentItem s)); [reflexivity|].
    destruct (negb (type_ parentItem =? "folder")%string); [reflexivity|].
    rewrite Hins. reflexivity.
  - destruct (negb (canWriteItem actor parentItem s)); [eexists; reflexivity|].
    destruct (negb (type_ parentItem =? "folder")%string); [eexists; reflexivity|].
    rewrite Hins. eexists; reflexivity.
  - intros Hw Hf. rewrite Hw, Hf. simpl. rewrite Hins. reflexivity.
Qed.

Lemma copyTask_depthBounded (maxLevels : nat) (actor : Member)
      (naming : string -> list string -> string) (fresh : string -> string)
      (parentItemId : option string) (targetId : string) (s : Store.t) :
  depthBounded maxLevels s ->
  depthBounded maxLevels (snd (copyTask maxLevels actor naming fresh parentItemId targetId s)).
Proof.
  intros Hs.
  assert (Hallowed : forall item parentItem,
             depthBounded maxLevels
               (snd (copyIfAllowed maxLevels actor naming fresh item parentItem s))).
  { intros item parentItem. unfold copyIfAllowed.
    destruct (existsb _ (copiesOf actor naming fresh item parentItem s)) eqn:Hdeep;
      simpl; [exact Hs|].
    intros it Hin. simpl in Hin. apply in_app_or in Hin as [Hin | Hin];
      [exact (Hs it Hin)|].
    assert (Hit : match assertDepthAllowed maxLevels (path it) with
                  | Some _ => true
                  | None => false
                  end = false).
    { destruct (match assertDepthAllowed maxLevels (path it) with
                | Some _ => true
                | None => false
                end) eqn:Hc; [|reflexivity].
      rewrite <- Hdeep. symmetry. apply existsb_exists. exists it. split; assumption. }
    unfold assertDepthAllowed in Hit.
    destruct (maxLevels <? Path.depth (path it)) eqn:Hlt; [discriminate|].
    apply Nat.ltb_ge in Hlt. exact Hlt. }
  unfold copyTask.
  destruct (getItem targetId s) as [item|]; simpl; [|exact Hs].
  destruct (negb (canRead actor item s)); simpl; [exact Hs|].
  destruct parentItemId as [pid|]; [|apply Hallowed].
  destruct (getItem pid s) as [p|]; simpl; [|exact Hs].
  destruct (negb (type_ p =? "folder")%string); simpl; [exact Hs|].
  destruct (negb (canWriteItem actor p s)); simpl; [exact Hs|].
  apply Hallowed.
Qed.

Lemma deleteTask_depthBounded (maxLevels : nat) (actor : Member) (targetId : string)
      (s : Store.t) :
  depthBounded maxLevels s ->
  depthBounded maxLevels (snd (deleteTask actor targetId s)).
Proof.
  intros Hs. unfold deleteTask.
  destruct (getItem targetId s) as [item|]; simpl; [|exact Hs].
  destruct (negb (canAdminItem actor item s)); simpl; [exact Hs|].
  intros it Hin. simpl in Hin. apply filter_In in Hin as [Hin _]. exact (Hs it Hin).
Qed.

Section Operations.

Variables (maxDescendants maxLevels maxChildren : nat) (actor : Member).
Variables (naming : string -> list string -> string) (fresh : string -> string).

Local Abbreviation performOne :=
  (perform maxDescendants maxLevels maxChildren actor naming fresh).

Lemma perform_depthBounded (op : Operation) (s : Store.t) :
  depthBounded maxLevels s -> depthBounded maxLevels (snd (performOne op s)).
Proof.
  intros Hs. destruct op as [t p | i n ty p | t p | t]; unfold perform.
  - apply moveTask_depthBounded. exact Hs.
  - pose proof (createItem_depthBounded maxLevels maxChildren actor i n ty p s Hs) as H.
    destruct (createItem maxLevels maxChildren actor i n ty p s) as [r s']. exact H.
  - apply copyTask_depthBounded. exact Hs.
  - apply deleteTask_depthBounded. exact Hs.
Qed.

Lemma performAll_depthBounded (ops : list Operation) (s : Store.t) :
  depthBounded maxLevels s ->
  depthBounded maxLevels
    (performAll maxDescendants maxLevels maxChildren actor naming fresh ops s).
Proof.
  revert s. induction ops as [|op ops IH]; intros s Hs; [exact Hs|].
  unfold performAll. simpl. apply IH. apply perform_depthBounded. exact Hs.
Qed.

(** An operation that fails leaves the store as it was. *)
Lemma perform_failure (op : Operation) (s : Store.t) (e : GraaspError) :
  fst (performOne op s) = inl e -> snd (performOne op s) = s.
Proof.
  destruct op as [t p | i n ty p | t p | t]; unfold perform.
  - pose proof (moveTask_phases maxDescendants maxLevels actor p t s) as H.
    destruct (validateMove _ _ _ _ _ s) as [e' | [item parentItem]]; rewrite H; simpl;
      [reflexivity | discriminate].
  - unfold createItem.
    assert (Hins : forall parentItem,
               match insertItem maxLevels maxChildren actor i n ty parentItem s with
               | (inl _, s') => s' = s
               | (inr _, _) => True
               end).
    { intros parentItem. unfold insertItem.
      destruct (assertDepthAllowed maxLevels _); [reflexivity|].
      destruct (match parentItem with Some _ => _ | None => false end); [reflexivity|].
      exact I. }
    destruct p as [pid|].
    + destruct (getItem pid s) as [parentItem|]; [|reflexivity].
      destruct (negb (canWriteItem actor parentItem s)); [reflexivity|].
      destruct (negb (type_ parentItem =? "folder")%string); [reflexivity|].
      specialize (Hins (Some parentItem)).
      destruct (insertItem _ _ _ _ _ _ _ s) as [[e'|it] s']; simpl;
        [intros _; exact Hins | discriminate].
    + specialize (Hins None).
      destruct (insertItem _ _ _ _ _ _ _ s) as [[e'|it] s']; simpl;
        [intros _; exact Hins | discriminate].
  - unfold copyTask.
    assert (Hallowed : forall item parentItem,
               fst (copyIfAllowed maxLevels actor naming fresh item parentItem s) = inl e ->
               snd (copyIfAllowed maxLevels actor naming fresh item parentItem s) = s).
    { intros item parentItem. unfold copyIfAllowed.
      destruct (existsb _ _); simpl; [reflexivity | discriminate]. }
    destruct (getItem t s) as [item|]; [|reflexivity].
    destruct (negb (canRead actor item s)); [reflexivity|].
    destruct p as [pid|]; [|apply Hallowed].
    destruct (getItem pid s) as [parentItem|]; [|reflexivity].
    destruct (negb (type_ parentItem =? "folder")%string); [reflexivity|].
    destruct (negb (canWriteItem actor parentItem s)); [reflexivity|].
    apply Hallowed.
  - unfold deleteTask.
    destruct (getItem t s) as [item|]; [|reflexivity].
    destruct (negb (canAdminItem actor item s)); simpl; [reflexivity | discriminate].
Qed.

End Operations.

End DepthBound.

Section DepthProperty.

Import Store Planner Fixtures.

Lemma depthBounded_checked (maxLevels : nat) (s : Store.t) :
  forallb (fun it => Path.depth (path it) <=? maxLevels) (items s) = true ->
  depthBounded maxLevels s.
Proof.
  intros H it Hin. rewrite forallb_forall in H. apply Nat.leb_le. exact (H it Hin).
Qed.




End DepthProperty.

(** ** Memberships across a move *)

Section MembershipMinimality.

Import Store Planner.

Lemma closest_from (l : list Membership) (acc : option Membership) (m : Membership) :
  fold_left (fun best m0 =>
               match best with
               | None => Some m0
               | Some b => if moreSpecific m0 b then Some m0 else Some b
               end) l acc = Some m ->
  In m l \/ acc = Some m.
Proof.
  revert acc; induction l as [|x l IH]; intros acc H; simpl in H.
  - right. exact H.
  - apply IH in H as [H | H]; [left; right; exact H|].
    destruct acc as [b|].
    + destruct (moreSpecific x b); injection H as <-; [left; left; reflexivity | right; reflexivity].
    + injection H as <-. left; left; reflexivity.
Qed.

Lemma effectivePermission_has_membership (subject : string) (p : Path.t) (s : Store.t)
      (lvl : PermissionLevel) :
  effectivePermission subject p s = Some lvl ->
  In subject (subjects s).
Proof.
  unfold effectivePermission, closest. intros H.
  destruct (fold_left _ _ None) as [m|] eqn:Hm; [|discriminate].
  apply closest_from in Hm as [Hm | Hm]; [|discriminate].
  apply filter_In in Hm as [Hin Hcov]. unfold covers in Hcov.
  apply andb_true_iff in Hcov as [Hid _]. apply String.eqb_eq in Hid.
  unfold subjects. apply nodup_In. rewrite <- Hid. apply in_map. exact Hin.
Qed.

Lemma rewrite_root (before after : Path.t) : rewrite before after before = after.
Proof.
  unfold rewrite. rewrite isPrefix_refl, skipn_all. apply app_nil_r.
Qed.

Lemma rewrite_to_root (before after p : Path.t) :
  Path.isPrefix before p = true -> rewrite before after p = after -> p = before.
Proof.
  intros Hpre Heq. unfold rewrite in Heq. rewrite Hpre in Heq.
  apply isPrefix_app in Hpre as [r ->].
  rewrite skipn_app, skipn_all, Nat.sub_diag in Heq. simpl in Heq.
  rewrite <- (app_nil_r after) in Heq at 2. apply app_inv_head in Heq. subst r.
  apply app_nil_r.
Qed.

Lemma hasExplicit_intro (m : Membership) (s : Store.t) :
  In m (memberships s) -> hasExplicit (memberId m) (itemPath m) s = true.
Proof.
  intros Hin. unfold hasExplicit. apply existsb_exists. exists m.
  split; [exact Hin|]. rewrite String.eqb_refl, path_eqb_refl. reflexivity.
Qed.

(** The explicit membership that replaces a lost inheritance is among the
    inserts. *)
Lemma insert_for_lost_inheritance (item : Item) (parentItem : option Item) (s : Store.t)
      (subject : string) (lvl : PermissionLevel) :
  hasExplicit subject (path item) s = false ->
  effectivePermission subject (path item) s = Some lvl ->
  grantedAt parentItem subject lvl s = false ->
  In (mkMembership subject (pathAfter item parentItem) lvl)
     (housekeepingInserts item parentItem s).
Proof.
  intros Hexp Heff Hgr. unfold housekeepingInserts. apply in_flat_map.
  exists subject. split; [exact (effectivePermission_has_membership _ _ _ _ Heff)|].
  rewrite Hexp, Heff, Hgr. left. reflexivity.
Qed.

(** No delete aims at the new root path for a subject without explicit
    membership on the moved item. *)
Lemma no_delete_at_root (item : Item) (parentItem : option Item) (s : Store.t)
      (subject : string) (lvl : PermissionLevel) :
  hasExplicit subject (path item) s = false ->
  existsb (matchesKey (mkMembership subject (pathAfter item parentItem) lvl))
          (housekeepingDeletes item parentItem s) = false.
Proof.
  intros Hexp. apply not_true_is_false. intros H.
  apply existsb_exists in H as (k & Hk & Hmatch).
  unfold housekeepingDeletes in Hk. apply in_flat_map in Hk as (m & Hm & Hk).
  destruct (Path.isPrefix (path item) (itemPath m)) eqn:Hpre; simpl in Hk;
    [|contradiction].
  destruct (grantedAt parentItem (memberId m) (permission m) s); simpl in Hk;
    [|contradiction].
  destruct Hk as [<- | []]. unfold matchesKey in Hmatch. simpl in Hmatch.
  apply andb_true_iff in Hmatch as [Hid Hpath].
  apply String.eqb_eq in Hid. apply path_eqb_eq in Hpath. symmetry in Hpath.
  apply (rewrite_to_root _ _ _ Hpre) in Hpath.
  pose proof (hasExplicit_intro m s Hm) as Hyes.
  rewrite Hpath, <- Hid, Hexp in Hyes. discriminate.
Qed.

(** The key of a redundant membership of the moved item is among the deletes. *)
Lemma delete_for_redundant (item : Item) (parentItem : option Item) (s : Store.t)
      (m : Membership) :
  In m (memberships s) ->
  itemPath m = path item ->
  grantedAt parentItem (memberId m) (permission m) s = true ->
  In (mkKey (memberId m) (pathAfter item parentItem))
     (housekeepingDeletes item parentItem s).
Proof.
  intros Hin Hpath Hgr. unfold housekeepingDeletes. apply in_flat_map.
  exists m. split; [exact Hin|].
  rewrite Hpath, isPrefix_refl, Hgr, rewrite_root. left. reflexivity.
Qed.

(** The membership rows that [moveItem] leaves: the rows as [ItemService.move]
    rewrote them and the inserts, without those that a delete matches. *)
Lemma moveItem_memberships (actor : Member) (item : Item) (parentItem : option Item)
      (w : World Store.t) :
  memberships (db (snd (moveItem actor item parentItem w)))
  = filter (fun m => negb (existsb (matchesKey m)
                                   (housekeepingDeletes item parentItem (db w))))
           (map (moveMembershipRow (path item) (pathAfter item parentItem))
                (memberships (db w))
            ++ housekeepingInserts item parentItem (db w)).
Proof.
  rewrite moveItem_spelled. simpl snd. simpl db.
  unfold applyDeletes, applyInserts. simpl inserts. simpl deletes.
  assert (Hall : forall l : list Membership,
             filter (fun m => negb (existsb (matchesKey m) [])) l = l).
  { induction l as [|x l IH]; [reflexivity|].
    cbn [filter existsb negb]. f_equal. exact IH. }
  destruct (housekeepingDeletes item parentItem (db w)) as [|k ks];
    destruct (housekeepingInserts item parentItem (db w)) as [|i rest];
    cbn [deleteManyMatching createMany itemMembershipService deleteMatching
         insertMemberships movePaths memberships];
    rewrite ?Hall, ?app_nil_r; reflexivity.
Qed.

(** Every delete is the key of a membership in the moved subtree that the
    destination makes redundant. *)
Lemma delete_is_redundant (item : Item) (parentItem : option Item) (s : Store.t)
      (k : MembershipKey) :
  In k (housekeepingDeletes item parentItem s) ->
  exists m0,
    In m0 (memberships s)
    /\ Path.isPrefix (path item) (itemPath m0) = true
    /\ grantedAt parentItem (memberId m0) (permission m0) s = true
    /\ k = mkKey (memberId m0)
                 (rewrite (path item) (pathAfter item parentItem) (itemPath m0)).
Proof.
  unfold housekeepingDeletes. intros Hk. apply in_flat_map in Hk as (m0 & Hm0 & Hk).
  destruct (Path.isPrefix (path item) (itemPath m0)) eqn:Hpre; simpl in Hk;
    [|contradiction].
  destruct (grantedAt parentItem (memberId m0) (permission m0) s) eqn:Hgr; simpl in Hk;
    [|contradiction].
  destruct Hk as [<- | []]. exists m0. repeat split; assumption.
Qed.

(** Every insert replaces an inheritance that the move loses. *)
Lemma insert_is_justified (item : Item) (parentItem : option Item) (s : Store.t)
      (m : Membership) :
  In m (housekeepingInserts item parentItem s) ->
  itemPath m = pathAfter item parentItem
  /\ hasExplicit (memberId m) (path item) s = false
  /\ effectivePermission (memberId m) (path item) s = Some (permission m)
  /\ grantedAt parentItem (memberId m) (permission m) s = false.
Proof.
  unfold housekeepingInserts. intros Hm. apply in_flat_map in Hm as (subject & _ & Hm).
  destruct (hasExplicit subject (path item) s) eqn:Hexp; [contradiction|].
  destruct (effectivePermission subject (path item) s) as [lvl|] eqn:Heff;
    [|contradiction].
  destruct (grantedAt parentItem subject lvl s) eqn:Hgr; [contradiction|].
  destruct Hm as [<- | []]. simpl. repeat split; assumption.
Qed.

(** No path is rewritten to the root of the subtree before the move, unless the
    root after the move lies on it. *)
Lemma rewrite_not_old_root (before after p : Path.t) :
  Path.isPrefix after before = false -> rewrite before after p <> before.
Proof.
  intros Hnot Heq. unfold rewrite in Heq.
  destruct (Path.isPrefix before p) eqn:Hpre.
  - assert (Hpre' : Path.isPrefix after before = true).
    { rewrite <- Heq. generalize (skipn (length before) p). clear.
      induction after as [|x l IH]; intros r; simpl; [reflexivity|].
      rewrite String.eqb_refl. apply IH. }
    congruence.
  - subst p. rewrite isPrefix_refl in Hpre. discriminate.
Qed.

(** C1.  After [moveItem]: a subject whose access to the moved item was purely
    inherited (no membership on the item itself, effective level [lvl]) and that
    the destination, root included, does not grant at least [lvl], has an
    explicit membership with level [lvl] at the item's new path; and when a
    membership [m] on the moved item is matched by an equal or higher grant in the
    destination's ancestor chain, no membership of that subject is left at the
    item's new path, nor any membership at all at the path the item had, which
    the move leaves.  Nothing else happens to the memberships: every row after
    the move is a row from before, with its path rewritten when it lies in the
    moved subtree, or such an insert; and every row from before is still there,
    rewritten, unless the destination makes it or a membership of its subject at
    the same place redundant. *)
Theorem move_keeps_memberships_minimal
  (actor : Member) (item : Item) (parentItem : option Item) (w : World Store.t) :
  (forall subject lvl,
      hasExplicit subject (path item) (db w) = false ->
      effectivePermission subject (path item) (db w) = Some lvl ->
      grantedAt parentItem subject lvl (db w) = false ->
      In (mkMembership subject (pathAfter item parentItem) lvl)
         (memberships (db (snd (moveItem actor item parentItem w)))))
  /\ (forall m,
         In m (memberships (db w)) ->
         itemPath m = path item ->
         grantedAt parentItem (memberId m) (permission m) (db w) = true ->
         forall m',
           In m' (memberships (db (snd (moveItem actor item parentItem w)))) ->
           ~ (memberId m' = memberId m /\ itemPath m' = pathAfter item parentItem))
  /\ (Path.isPrefix (pathAfter item parentItem) (path item) = false ->
      forall m',
        In m' (memberships (db (snd (moveItem actor item parentItem w)))) ->
        itemPath m' <> path item)
  /\ (forall m',
         In m' (memberships (db (snd (moveItem actor item parentItem w)))) ->
         (exists m,
             In m (memberships (db w))
             /\ m' = mkMembership (memberId m)
                       (rewrite (path item) (pathAfter item parentItem) (itemPath m))
                       (permission m))
         \/ (itemPath m' = pathAfter item parentItem
             /\ hasExplicit (memberId m') (path item) (db w) = false
             /\ effectivePermission (memberId m') (path item) (db w)
                = Some (permission m')
             /\ grantedAt parentItem (memberId m') (permission m') (db w) = false))
  /\ (forall m,
         In m (memberships (db w)) ->
         (forall m0,
             In m0 (memberships (db w)) ->
             Path.isPrefix (path item) (itemPath m0) = true ->
             grantedAt parentItem (memberId m0) (permission m0) (db w) = true ->
             memberId m0 = memberId m ->
             rewrite (path item) (pathAfter item parentItem) (itemPath m0)
             <> rewrite (path item) (pathAfter item parentItem) (itemPath m)) ->
         In (mkMembership (memberId m)
               (rewrite (path item) (pathAfter item parentItem) (itemPath m))
               (permission m))
            (memberships (db (snd (moveItem actor item parentItem w))))).
Proof.
  rewrite moveItem_memberships. set (s := db w).
  split; [|split; [|split; [|split]]].
  - intros subject lvl Hexp Heff Hgr.
    apply filter_In. split.
    + apply in_or_app. right.
      exact (insert_for_lost_inheritance item parentItem s subject lvl Hexp Heff Hgr).
    + rewrite (no_delete_at_root item parentItem s subject lvl Hexp). reflexivity.
  - intros m Hin Hpath Hgr m' Hin' [Hid Hp].
    pose proof (delete_for_redundant item parentItem s m Hin Hpath Hgr) as Hdel.
    apply filter_In in Hin' as [_ Hkeep]. apply negb_true_iff in Hkeep.
    assert (Hyes : existsb (matchesKey m') (housekeepingDeletes item parentItem s) = true).
    { apply existsb_exists. exists (mkKey (memberId m) (pathAfter item parentItem)).
      split; [exact Hdel|].
      unfold matchesKey. simpl. rewrite Hid, Hp, String.eqb_refl, path_eqb_refl.
      reflexivity. }
    congruence.
  - intros Hnot m' Hin' Hold.
    apply filter_In in Hin' as [Hin' _]. apply in_app_or in Hin' as [Hin' | Hin'].
    + apply in_map_iff in Hin' as (m & <- & _). simpl in Hold.
      exact (rewrite_not_old_root _ _ _ Hnot Hold).
    + apply insert_is_justified in Hin' as (Hp & _).
      rewrite Hp in Hold. rewrite Hold, isPrefix_refl in Hnot. discriminate.
  - intros m' Hin'.
    apply filter_In in Hin' as [Hin' _]. apply in_app_or in Hin' as [Hin' | Hin'].
    + left. apply in_map_iff in Hin' as (m & <- & Hm). exists m.
      split; [exact Hm | reflexivity].
    + right. exact (insert_is_justified item parentItem s m' Hin').
  - intros m Hin Hfree.
    apply filter_In. split.
    + apply in_or_app. left.
      apply (in_map (moveMembershipRow (path item) (pathAfter item parentItem)) _ _ Hin).
    + apply negb_true_iff. apply not_true_is_false. intros Hex.
      apply existsb_exists in Hex as (k & Hk & Hmatch).
      apply delete_is_redundant in Hk as (m0 & Hm0 & Hpre & Hgr & ->).
      unfold matchesKey in Hmatch. simpl in Hmatch.
      apply andb_true_iff in Hmatch as [Hid Hp].
      apply String.eqb_eq in Hid. apply path_eqb_eq in Hp.
      exact (Hfree m0 Hm0 Hpre Hgr (eq_sym Hid) (eq_sym Hp)).
Qed.

End MembershipMinimality.

Section MembershipScenarios.

Import Store Planner Fixtures.

(** An instance of [move_keeps_memberships_minimal] on the two move tests: the
    item with inherited access moved to the root gets an admin membership at its
    new path, and the root item moved under the actor's folder loses its own: no
    membership is left at the path it had nor at the path it has, and the
    membership on the folder stays. *)
Lemma move_keeps_memberships_minimal_witness :
  (let item := snd (fst inheritedItem) in
   let s := snd inheritedItem in
   (hasExplicit "actor" (path item) s = false
    /\ effectivePermission "actor" (path item) s = Some Admin
    /\ grantedAt None "actor" Admin s = false)
   /\ In (mkMembership "actor" ["item"] Admin)
         (memberships (db (snd (moveItem actor item None (mkWorld s [] NEW None))))))
  /\ (let parentItem := fst (fst twoRoots) in
      let item := snd (fst twoRoots) in
      let s := snd twoRoots in
      let m := mkMembership "actor" ["item"] Admin in
      let after :=
        memberships (db (snd (moveItem actor item (Some parentItem)
                                       (mkWorld s [] NEW None)))) in
      (In m (memberships s)
       /\ itemPath m = path item
       /\ grantedAt (Some parentItem) (memberId m) (permission m) s = true
       /\ Path.isPrefix (pathAfter item (Some parentItem)) (path item) = false)
      /\ (forall m', In m' after ->
                     ~ (memberId m' = "actor" /\ itemPath m' = ["parent"; "item"]))
      /\ (forall m', In m' after -> itemPath m' <> ["item"])
      /\ In (mkMembership "actor" ["parent"] Admin) after).
Proof.
  split.
  - intros item s.
    assert (H1 : hasExplicit "actor" (path item) s = false) by reflexivity.
    assert (H2 : effectivePermission "actor" (path item) s = Some Admin) by reflexivity.
    assert (H3 : grantedAt None "actor" Admin s = false) by reflexivity.
    split; [repeat split; assumption|].
    exact (proj1 (move_keeps_memberships_minimal actor item None (mkWorld s [] NEW None))
                 "actor" Admin H1 H2 H3).
  - intros parentItem item s m after.
    assert (H1 : In m (memberships s)) by (right; left; reflexivity).
    assert (H2 : itemPath m = path item) by reflexivity.
    assert (H3 : grantedAt (Some parentItem) (memberId m) (permission m) s = true)
      by reflexivity.
    assert (H4 : Path.isPrefix (pathAfter item (Some parentItem)) (path item) = false)
      by reflexivity.
    destruct (move_keeps_memberships_minimal actor item (Some parentItem)
                (mkWorld s [] NEW None)) as (_ & Hdel & Hold & _ & Hkeep).
    split; [repeat split; assumption|].
    split; [exact (Hdel m H1 H2 H3)|].
    split; [exact (Hold H4)|].
    apply (Hkeep (mkMembership "actor" ["parent"] Admin)); [left; reflexivity|].
    intros m0 [<- | [<- | []]] Hpre _ _; [discriminate Hpre | discriminate].
Defined.

End MembershipScenarios.

(** ** Bulk requests *)

Section BulkRoutes.

Import Json Store Planner Bulk FluentSchema Routes.

Variables (maxDescendants maxLevels maxTargets syncThreshold : nat).
Variables (uuid idsQuery error : S.Schema).
Variable present : string -> GraaspError + unit -> Json.t.
Variable naming : string -> list string -> string.
Variable fresh : string -> string.
Variable actor : Member.

Local Abbreviation moveRoute :=
  (moveManyRoute maxDescendants maxLevels maxTargets syncThreshold uuid idsQuery
                 present actor).
Local Abbreviation deleteRoute :=
  (deleteManyRoute maxTargets syncThreshold uuid idsQuery error present actor).
Local Abbreviation copyRoute :=
  (copyManyRoute maxLevels maxTargets syncThreshold uuid idsQuery present naming fresh
                 actor).
Local Abbreviation moveOf req :=
  (moveTask maxDescendants maxLevels actor (parentIdOf (payload req))).
Local Abbreviation copyOf req :=
  (copyTask maxLevels actor naming fresh (parentIdOf (payload req))).

Lemma runEach_targets (task : Task) (ids : list string) (s : Store.t) :
  map fst (fst (runEach task ids s)) = ids.
Proof.
  revert s. induction ids as [|i rest IH]; intros s; simpl; [reflexivity|].
  destruct (task i s) as [r s1].
  destruct (runEach task rest (match r with inl _ => s | inr _ => s1 end)) as [rs s2] eqn:Hrest.
  simpl. f_equal. specialize (IH (match r with inl _ => s | inr _ => s1 end)).
  rewrite Hrest in IH. exact IH.
Qed.

Lemma coordinator_below (task : Task) (ids : list string) (s : Store.t) :
  length ids < syncThreshold ->
  coordinator syncThreshold present task ids s
  = (mkReply OK_ (outcomeArray present (fst (runEach task ids s))),
     snd (runEach task ids s)).
Proof.
  intros H. apply Nat.ltb_lt in H. unfold coordinator.
  destruct (runEach task ids s) as [rs s']. rewrite H. reflexivity.
Qed.

Lemma coordinator_from (task : Task) (ids : list string) (s : Store.t) :
  syncThreshold <= length ids ->
  coordinator syncThreshold present task ids s
  = (mkReply ACCEPTED (strings ids), snd (runEach task ids s)).
Proof.
  intros H. apply Nat.ltb_ge in H. unfold coordinator.
  destruct (runEach task ids s) as [rs s']. rewrite H. reflexivity.
Qed.

Lemma outcomeArray_fits (rs : list (string * (GraaspError + unit))) :
  (forall i r, S.validate (S.anyOf [error; item uuid]) (present i r) = true) ->
  S.validate (S.array |> S.items (S.anyOf [error; item uuid])) (outcomeArray present rs)
  = true.
Proof.
  intros Hpresent. unfold S.validate at 1, S.items, S.withKeyword, S.array, outcomeArray.
  cbn [S.holds S.closed negb orb andb]. rewrite andb_true_r.
  apply forallb_forall. intros j Hj. apply in_map_iff in Hj as (r & <- & _).
  apply Hpresent.
Qed.

Lemma strings_fit (ids : list string) :
  (forall i, In i ids -> S.validate uuid (Str i) = true) ->
  S.validate (S.array |> S.items uuid) (strings ids) = true.
Proof.
  intros Hids. unfold S.validate at 1, S.items, S.withKeyword, S.array, strings.
  cbn [S.holds S.closed negb orb andb]. rewrite andb_true_r.
  apply forallb_forall. intros j Hj. apply in_map_iff in Hj as (i & <- & Hi).
  apply Hids. exact Hi.
Qed.



Lemma idsOf_idsRequest (ids : list string) (parentId : option string) :
  idsOf (query (idsRequest ids parentId)) = ids.
Proof.
  unfold idsRequest, idsOf, strings. simpl.
  induction ids as [|i ids IH]; simpl; [reflexivity | f_equal; exact IH].
Qed.

Lemma idsQuerystring_too_long (fields : list (string * Json.t)) (l : list Json.t) :
  lookup "id" fields = Some (Arr l) ->
  maxTargets < length l ->
  S.validate (idsQuerystring maxTargets idsQuery) (Obj fields) = false.
Proof.
  intros Hid Hlen. apply Nat.leb_gt in Hlen.
  unfold S.validate at 1. unfold idsQuerystring, S.extend, S.prop. cbn [S.holds].
  rewrite Hid. unfold S.validate, S.maxItems, S.withKeyword, S.array. cbn [S.holds S.closed].
  rewrite Hlen. cbn. rewrite !andb_false_r. reflexivity.
Qed.

Lemma idsQuerystring_within (fields : list (string * Json.t)) (l : list Json.t) :
  lookup "id" fields = Some (Arr l) ->
  length l <= maxTargets ->
  S.validate idsQuery (Obj fields) = true ->
  S.validate (idsQuerystring maxTargets idsQuery) (Obj fields) = true.
Proof.
  intros Hid Hlen Hbase. apply Nat.leb_le in Hlen.
  unfold S.validate in Hbase. apply andb_true_iff in Hbase as [Hholds Hclosed].
  unfold S.validate at 1. unfold idsQuerystring, S.extend, S.prop.
  cbn [S.holds S.closed S.declared S.object].
  rewrite Hholds, Hid. unfold S.validate, S.maxItems, S.withKeyword, S.array.
  cbn [S.holds S.closed]. rewrite Hlen. cbn [andb negb orb].
  destruct (S.closed idsQuery); [|reflexivity]. cbn [negb orb] in *.
  rewrite forallb_forall in *. intros kv Hkv. specialize (Hclosed kv Hkv).
  cbn [app existsb]. rewrite Hclosed. apply orb_true_r.
Qed.

(** C8.  A bulk move, copy or delete request with more than
    [MAX_TARGETS_FOR_MODIFY_REQUEST] identifiers is answered with a bad request
    and its handler does not run: the store is untouched.  A request with exactly
    that many identifiers, valid for the shared [idsQuery] schema and with a
    valid body, reaches the handler, which runs the task on each target and
    answers as section 4.5 has it: with the acknowledgement unless the
    synchronous threshold lies above [MAX_TARGETS_FOR_MODIFY_REQUEST]. *)
Theorem bulk_size_limit (s : Store.t) :
  (forall schema handler fields l body,
      In schema (bulkSchemas maxTargets uuid idsQuery error) ->
      lookup "id" fields = Some (Arr l) ->
      maxTargets < length l ->
      route schema handler (mkRequest (Obj fields) body) s
      = (mkReply BAD_REQUEST Null, s))
  /\ (forall schema handler ids parentId,
         In schema (bulkSchemas maxTargets uuid idsQuery error) ->
         length ids = maxTargets ->
         S.validate idsQuery (query (idsRequest ids parentId)) = true ->
         match parentId with
         | Some p => S.validate uuid (Str p) = true
         | None => True
         end ->
         route schema handler (idsRequest ids parentId) s
         = handler (idsRequest ids parentId) s)
  /\ (forall ids parentId,
         length ids = maxTargets ->
         S.validate idsQuery (query (idsRequest ids parentId)) = true ->
         match parentId with
         | Some p => S.validate uuid (Str p) = true
         | None => True
         end ->
         moveRoute (idsRequest ids parentId) s
         = (if maxTargets <? syncThreshold
            then mkReply OK_
                   (outcomeArray present
                      (fst (runEach (moveTask maxDescendants maxLevels actor parentId)
                                    ids s)))
            else mkReply ACCEPTED (strings ids),
            snd (runEach (moveTask maxDescendants maxLevels actor parentId) ids s))).
Proof.
  assert (Haccept : forall schema ids parentId,
    In schema (bulkSchemas maxTargets uuid idsQuery error) ->
    length ids = maxTargets ->
    S.validate idsQuery (query (idsRequest ids parentId)) = true ->
    match parentId with
    | Some p => S.validate uuid (Str p) = true
    | None => True
    end ->
    acceptedBy schema (idsRequest ids parentId) = true).
  { intros schema ids parentId Hschema Hlen Hquery Hbody.
    assert (Hq : S.validate (idsQuerystring maxTargets idsQuery)
                            (query (idsRequest ids parentId)) = true).
    { apply (idsQuerystring_within _ (map Str ids)); [reflexivity | | exact Hquery].
      rewrite length_map. lia. }
    assert (Hb : S.validate (parentIdBody uuid) (payload (idsRequest ids parentId)) = true).
    { unfold idsRequest. cbn [payload]. destruct parentId as [p|].
      - unfold S.validate at 1. unfold parentIdBody, S.prop, S.additionalProperties.
        cbn. rewrite Hbody. reflexivity.
      - reflexivity. }
    unfold acceptedBy.
    destruct Hschema as [<- | [<- | [<- | []]]];
      unfold moveMany, copyMany, deleteMany; cbn [querystring body];
      rewrite Hq; try rewrite Hb; reflexivity. }
  split; [|split].
  - intros schema handler fields l body Hschema Hid Hlen. unfold route, acceptedBy.
    cbn [query].
    assert (Hq : S.validate (querystring schema) (Obj fields) = false).
    { destruct Hschema as [<- | [<- | [<- | []]]];
        unfold moveMany, copyMany, deleteMany; cbn [querystring];
        exact (idsQuerystring_too_long fields l Hid Hlen). }
    rewrite Hq. reflexivity.
  - intros schema handler ids parentId Hschema Hlen Hquery Hbody. unfold route.
    rewrite (Haccept schema ids parentId Hschema Hlen Hquery Hbody). reflexivity.
  - intros ids parentId Hlen Hquery Hbody. unfold moveManyRoute, route.
    rewrite (Haccept _ ids parentId (or_introl eq_refl) Hlen Hquery Hbody).
    unfold coordinator. rewrite idsOf_idsRequest, Hlen.
    assert (Hparent : parentIdOf (payload (idsRequest ids parentId)) = parentId)
      by (destruct parentId; reflexivity).
    rewrite Hparent.
    destruct (runEach (moveTask maxDescendants maxLevels actor parentId) ids s)
      as [rs s'].
    reflexivity.
Qed.

End BulkRoutes.

(** ** Lengths of texts *)

Section TextLengths.

Lemma string_length_append (a b : string) :
  String.length (a ++ b) = String.length a + String.length b.
Proof. induction a as [|c a IH]; simpl; [reflexivity | rewrite IH; reflexivity]. Qed.

Lemma append_inv_head (a b c : string) : (a ++ b = a ++ c)%string -> b = c.
Proof.
  induction a as [|x a IH]; simpl; intros H; [exact H|].
  injection H as H. exact (IH H).
Qed.

Lemma append_inv_tail (a b c : string) : (a ++ c = b ++ c)%string -> a = b.
Proof.
  intros H.
  assert (Hlen : String.length a = String.length b).
  { apply (f_equal String.length) in H. rewrite !string_length_append in H. lia. }
  revert b H Hlen. induction a as [|x a IH]; intros [|y b] H Hlen;
    try discriminate Hlen; [reflexivity|].
  simpl in H, Hlen. injection H as -> H. f_equal. apply IH; [exact H | lia].
Qed.

End TextLengths.

(** ** Instances on the fixtures *)

Section RouteTests.

Import Json Store Planner Bulk FluentSchema Routes Fixtures.

Local Abbreviation moveRoute :=
  (moveManyRoute MAX_DESCENDANTS_FOR_MOVE MAX_TREE_LEVELS MAX_TARGETS_FOR_MODIFY_REQUEST
                 syncThreshold uuid idsQuery present actor).
Local Abbreviation deleteRouteWith threshold :=
  (deleteManyRoute MAX_TARGETS_FOR_MODIFY_REQUEST threshold uuid idsQuery error present
                   actor).
Local Abbreviation moveOne :=
  (moveTask MAX_DESCENDANTS_FOR_MOVE MAX_TREE_LEVELS actor).

(** The map of outcomes is an object, and both answers that [deleteMany] declares
    are arrays. *)
Lemma outcomeMap_refused (maxTargets : nat) (uuid idsQuery error : S.Schema)
      (rs : list (string * (GraaspError + unit))) :
  forall code sch,
    responseFor code (response (deleteMany maxTargets uuid idsQuery error)) = Some sch ->
    S.validate sch (outcomeMap rs) = false.
Proof.
  intros code sch H. cbn [deleteMany response responseFor] in H.
  destruct (200 =? code).
  - injection H as <-. reflexivity.
  - destruct (202 =? code); [|discriminate]. injection H as <-. reflexivity.
Qed.



(** An instance of [bulk_size_limit] on 'Move lots of items': with 21 identifiers
    the request is refused and nothing moves; with 20 every item ends under the
    parent. *)
Lemma bulk_size_limit_witness :
  let parentItem := fst (fst (parentAndItems 20)) in
  let its := snd (fst (parentAndItems 20)) in
  let s := snd (parentAndItems 20) in
  let more := map id (snd (fst (parentAndItems 21))) in
  let s21 := snd (parentAndItems 21) in
  (length more = 21
   /\ moveRoute (idsRequest more (Some "parent")) s21 = (mkReply BAD_REQUEST Null, s21))
  /\ (length (map id its) = MAX_TARGETS_FOR_MODIFY_REQUEST
      /\ statusCode (fst (moveRoute (idsRequest (map id its) (Some "parent")) s)) = ACCEPTED
      /\ allUnder parentItem its
                  (snd (moveRoute (idsRequest (map id its) (Some "parent")) s)) = true).
Proof.
  intros parentItem its s more s21.
  destruct (bulk_size_limit MAX_DESCENDANTS_FOR_MOVE MAX_TREE_LEVELS
              MAX_TARGETS_FOR_MODIFY_REQUEST syncThreshold
              uuid idsQuery error present actor s21)
    as (Hreject & _ & _).
  destruct (bulk_size_limit MAX_DESCENDANTS_FOR_MOVE MAX_TREE_LEVELS
              MAX_TARGETS_FOR_MODIFY_REQUEST syncThreshold
              uuid idsQuery error present actor s)
    as (_ & _ & Hprocess).
  split.
  - split; [reflexivity|].
    unfold moveManyRoute, idsRequest.
    apply Hreject with (l := map Str more);
      [left; reflexivity | reflexivity | vm_compute; lia].
  - assert (Hlen : length (map id its) = MAX_TARGETS_FOR_MODIFY_REQUEST) by reflexivity.
    split; [exact Hlen|].
    rewrite (Hprocess (map id its) (Some "parent") Hlen eq_refl eq_refl).
    split; reflexivity.
Defined.

(** The scenario of section 8: after the item is moved under the folder where
    the subject is admin by inheritance, its effective permission on the item is
    still admin, and the folder's membership is the only one left. *)
Lemma effective_permission_after_move :
  let parentItem := fst (fst twoRoots) in
  let s' := snd (moveOne (Some "parent") "item" (snd twoRoots)) in
  effectivePermission "actor" ["parent"; "item"] s' = Some Admin
  /\ memberships s' = [mkMembership "actor" ["parent"] Admin].
Proof. split; reflexivity. Qed.

End RouteTests.

(** ** [POST /password/nouser] *)

Section PasswordNoUser.

Import Password.

Context {Db E : Type}.
Variable getByEmail : Db -> string -> option Member.
Variable validate : string -> Db -> E + Db.
Variable post : Member -> Db -> string -> E + Db.

(** C10.  When no member has the email, the branch of the handler sets the
    status 404 and the handler then sets 204: the answer is 204 No Content, the
    same status as when the member exists and the password is set. *)
Theorem nouser_missing_member_is_no_content
  (email password : string) (d : Db) (r : Reply) :
  (getByEmail d email = None ->
   statusCode (snd (memberBranch validate post (getByEmail d email) password d r))
   = StatusCodes.NOT_FOUND
   /\ postPasswordNoUser getByEmail validate post email password d r
      = (inr tt, d, mkReply StatusCodes.NO_CONTENT (console r ++ [None])))
  /\ (forall m d1 d2,
         getByEmail d email = Some m ->
         validate (memberIdOf m) d = inr d1 ->
         post m d1 password = inr d2 ->
         postPasswordNoUser getByEmail validate post email password d r
         = (inr tt, d2, mkReply StatusCodes.NO_CONTENT (console r))).
Proof.
  unfold postPasswordNoUser, transaction, memberBranch. split.
  - intros ->. split; reflexivity.
  - intros m d1 d2 -> Hv Hp. rewrite Hv, Hp. reflexivity.
Qed.

End PasswordNoUser.

Section PasswordNoUserWitness.

Import Password.

(** An instance of [nouser_missing_member_is_no_content]: an unknown email and a
    known one both end with status 204. *)
Lemma nouser_missing_member_is_no_content_witness :
  let run email :=
    postPasswordNoUser sampleGetByEmail sampleValidate samplePost email "secret"
                       sampleMembers (mkReply StatusCodes.OK []) in
  sampleGetByEmail sampleMembers "bob@graasp.org" = None
  /\ statusCode (snd (run "bob@graasp.org")) = 204
  /\ statusCode (snd (run "ann@graasp.org")) = 204.
Proof.
  intros run.
  assert (Hnone : sampleGetByEmail sampleMembers "bob@graasp.org" = None) by reflexivity.
  split; [exact Hnone|]. split.
  - unfold run.
    rewrite (proj2 (proj1 (nouser_missing_member_is_no_content
                             sampleGetByEmail sampleValidate samplePost
                             "bob@graasp.org" "secret" sampleMembers
                             (mkReply StatusCodes.OK [])) Hnone)).
    reflexivity.
  - unfold run.
    rewrite (proj2 (nouser_missing_member_is_no_content
                      sampleGetByEmail sampleValidate samplePost
                      "ann@graasp.org" "secret" sampleMembers
                      (mkReply StatusCodes.OK []))
                   (mkMember "ann") sampleMembers
                   [("ann@graasp.org", (mkMember "ann", Some "secret"))]
                   eq_refl eq_refl eq_refl).
    reflexivity.
Defined.

End PasswordNoUserWitness.

(** * Further properties of the sources *)

(** ** [MoveItemTask.run]: what a failing and a successful run leave *)

Section MoveTaskReport.

Context {Db : Type} {IS : ItemService Db} {IMS : ItemMembershipService Db}.
Variables (maxDescendants maxLevels : nat) (actor : Member).
Variables (targetId : string) (parentItemId : option string).

Local Abbreviation runTask := (run maxDescendants maxLevels actor targetId parentItemId).

Ltac step := unfold bind, query, exec, setStatus, setMessage, throw, ret; simpl.

(** X1.  A move that fails has only read: the database and the message of the
    task are as before, the status of the task is still RUNNING, and every call
    it sent through the handler is a query. *)
Theorem failed_move_has_only_read (w : World Db) (e : GraaspError) :
  fst (runTask w) = inl e ->
  db (snd (runTask w)) = db w
  /\ status (snd (runTask w)) = RUNNING
  /\ message (snd (runTask w)) = message w
  /\ exists reads,
      calls (snd (runTask w)) = calls w ++ reads /\ forallb isRead reads = true.
Proof.
  unfold run. step.
  destruct (get targetId (db w)) as [item|]; step.
  2:{ intros _. repeat split. exists [CallGet targetId]. split; reflexivity. }
  destruct (canAdmin actor item (db w)); step.
  2:{ intros _. repeat split. eexists. rewrite <- app_assoc. split; reflexivity. }
  destruct (maxDescendants <? getNumberOfDescendants item (db w)); step.
  { intros _. repeat split. eexists. repeat rewrite <- app_assoc. split; reflexivity. }
  destruct (truthy parentItemId).
  - unfold attachTo. step.
    destruct (get (match parentItemId with Some s => s | None => "" end) (db w))
      as [parentItem|]; step.
    2:{ intros _. repeat split. eexists. repeat rewrite <- app_assoc.
        split; reflexivity. }
    destruct (_ || _); step.
    { intros _. repeat split. eexists. repeat rewrite <- app_assoc. split; reflexivity. }
    destruct (canWrite actor parentItem (db w)); step.
    2:{ intros _. repeat split. eexists. repeat rewrite <- app_assoc.
        split; reflexivity. }
    destruct (maxLevels <? _); step.
    { intros _. repeat split. eexists. repeat rewrite <- app_assoc. split; reflexivity. }
    rewrite moveItem_spelled. step. discriminate.
  - destruct (hasNoParent item); step.
    { intros _. repeat split. eexists. repeat rewrite <- app_assoc. split; reflexivity. }
    rewrite moveItem_spelled. step. discriminate.
Qed.


(** X4.  The test for a move below the item itself compares the path texts: a
    destination whose path text begins with the text of the item's path is
    refused with [InvalidMoveTarget], also when it is no descendant of the item
    (a sibling whose identifier extends the item's). *)
Theorem destination_with_extending_path_text_is_refused
  (w : World Db) (item parentItem : Item) (pid suffix : string) :
  get targetId (db w) = Some item ->
  canAdmin actor item (db w) = true ->
  getNumberOfDescendants item (db w) <= maxDescendants ->
  parentItemId = Some pid -> pid <> "" ->
  get pid (db w) = Some parentItem ->
  Path.encode (path parentItem) = (Path.encode (path item) ++ suffix)%string ->
  fst (runTask w) = inl (InvalidMoveTarget (Some pid)).
Proof.
  intros Hitem Hadmin Hn Hpid Hne Hparent Htext.
  apply Nat.ltb_ge in Hn. apply String.eqb_neq in Hne.
  unfold run. step. rewrite Hitem. step. rewrite Hadmin. step. rewrite Hn. step.
  rewrite Hpid. simpl. rewrite Hne. simpl.
  unfold attachTo. step. rewrite Hparent. step.
  unfold Path.startsWith. rewrite Htext, prefix_append. reflexivity.
Qed.

End MoveTaskReport.

(** ** The limits of a move *)

Section MoveLimits.

Context {Db : Type} {IS : ItemService Db} {IMS : ItemMembershipService Db}.
Variables (actor : Member) (targetId : string) (parentItemId : option string).

Ltac step := unfold bind, query, exec, setStatus, setMessage, throw, ret; simpl.

(** X13.  Raising [MAX_DESCENDANTS_FOR_MOVE] or [MAX_TREE_LEVELS] never turns
    a move that succeeds into one that fails: under the higher limits the task
    makes the same calls and leaves the same database, status and message. *)
Theorem raising_the_limits_keeps_a_move
  (maxDescendants maxDescendants' maxLevels maxLevels' : nat) (w : World Db) :
  maxDescendants <= maxDescendants' ->
  maxLevels <= maxLevels' ->
  fst (run maxDescendants maxLevels actor targetId parentItemId w) = inr tt ->
  run maxDescendants' maxLevels' actor targetId parentItemId w
  = run maxDescendants maxLevels actor targetId parentItemId w.
Proof.
  intros HD HL. unfold run. step.
  destruct (get targetId (db w)) as [item|]; step; [|discriminate].
  destruct (canAdmin actor item (db w)); step; [|discriminate].
  destruct (maxDescendants <? getNumberOfDescendants item (db w)) eqn:Hn; step;
    [discriminate|].
  apply Nat.ltb_ge in Hn.
  assert (Hn' : (maxDescendants' <? getNumberOfDescendants item (db w)) = false)
    by (apply Nat.ltb_ge; lia).
  rewrite Hn'. step.
  destruct (truthy parentItemId); [|reflexivity].
  unfold attachTo. step.
  destruct (get _ (db w)) as [parentItem|]; step; [|discriminate].
  destruct (_ || _); step; [discriminate|].
  destruct (canWrite actor parentItem (db w)); step; [|discriminate].
  destruct (maxLevels <? _) eqn:Hl; step; [discriminate|].
  apply Nat.ltb_ge in Hl.
  assert (Hl' : (maxLevels' <? Path.depth (path parentItem) + 1
                               + getNumberOfLevelsToFarthestChild item (db w)) = false)
    by (apply Nat.ltb_ge; lia).
  rewrite Hl'. reflexivity.
Qed.

End MoveLimits.

(** ** The test for a move below the item itself *)

Section CycleTest.

Lemma prefix_nil (s : string) : String.prefix "" s = true.
Proof. destruct s; reflexivity. Qed.

Lemma prefix_cancel (a r r' : string) :
  String.prefix (a ++ r) (a ++ r') = String.prefix r r'.
Proof.
  induction a as [|c a IH]; simpl; [reflexivity|].
  destruct (Ascii.ascii_dec c c) as [_|ne]; [exact IH | contradiction].
Qed.

Lemma prefix_same_length (a a' r r' : string) :
  String.length a = String.length a' ->
  String.prefix (a ++ r) (a' ++ r') = true -> a = a'.
Proof.
  revert a'. induction a as [|c a IH]; intros [|c' a'] Hlen H;
    try discriminate Hlen; [reflexivity|].
  simpl in H. destruct (Ascii.ascii_dec c c') as [->|]; [|discriminate].
  f_equal. apply IH; [simpl in Hlen; lia | exact H].
Qed.

(** X3.  For paths whose labels all have one and the same length, not zero,
    the comparison of texts that [run] makes,
    [parentItemPath.startsWith(item.path)], holds exactly when the destination
    is the item itself or lies below it. *)
Theorem cycle_test_is_exact_for_labels_of_one_length (n : nat) (a b : Path.t) :
  0 < n ->
  Forall (fun l => String.length l = n) a ->
  Forall (fun l => String.length l = n) b ->
  Path.startsWith a b = Path.isPrefix b a.
Proof.
  intros Hn Ha Hb. revert a Ha.
  induction Hb as [|lb b' Hlb Hb' IH]; intros a Ha.
  - unfold Path.startsWith. simpl. apply prefix_nil.
  - unfold Path.startsWith. destruct Ha as [|la a' Hla Ha'].
    + rewrite encode_cons. destruct lb as [|c lb]; [simpl in Hlb; lia | reflexivity].
    + rewrite !encode_cons. cbn [Path.isPrefix].
      destruct (String.eqb lb la) eqn:Heq.
      * apply String.eqb_eq in Heq. subst la. rewrite prefix_cancel. simpl.
        destruct Hb' as [|y b'' Hy Hb''] .
        -- apply prefix_nil.
        -- destruct Ha' as [|z a'' Hz Ha''].
           ++ reflexivity.
           ++ change (String "." ?x) with ("." ++ x)%string.
              rewrite (prefix_cancel ".").
              apply (IH (z :: a'')). constructor; assumption.
      * apply String.eqb_neq in Heq. simpl.
        destruct (String.prefix _ _) eqn:Hp; [|reflexivity].
        exfalso. apply Heq. eapply prefix_same_length; [|exact Hp]. congruence.
Qed.

(** An instance of [cycle_test_is_exact_for_labels_of_one_length]. *)
Lemma cycle_test_is_exact_for_labels_of_one_length_witness :
  Path.startsWith ["aa"; "bb"; "cc"] ["aa"; "bb"] = true
  /\ Path.startsWith ["aa"; "bc"] ["aa"; "bb"] = false.
Proof.
  split.
  - rewrite (cycle_test_is_exact_for_labels_of_one_length 2);
      [reflexivity | lia | repeat constructor | repeat constructor].
  - rewrite (cycle_test_is_exact_for_labels_of_one_length 2);
      [reflexivity | lia | repeat constructor | repeat constructor].
Defined.

End CycleTest.

(** ** Names of items *)

Section NamePattern.

Import Regex ItemValidation.

Lemma append_nil_r (s : string) : (s ++ "")%string = s.
Proof. induction s as [|c s IH]; simpl; [reflexivity | f_equal; exact IH]. Qed.

Lemma append_eq_nil (a b : string) : (a ++ b)%string = "" -> a = "" /\ b = "".
Proof. destruct a; simpl; [auto | discriminate]. Qed.

Lemma append_eq_cons (a b : string) (c : ascii) (s : string) :
  (a ++ b)%string = String c s ->
  (a = "" /\ b = String c s) \/ (exists a', a = String c a' /\ s = (a' ++ b)%string).
Proof.
  destruct a as [|x a]; simpl; intros H; [left; auto|].
  injection H as -> <-. right. exists a. auto.
Qed.

Lemma nullable_spec (r : t) : nullable r = true <-> Matches r "".
Proof.
  split.
  - induction r; simpl; intros H; try discriminate.
    + constructor.
    + apply andb_true_iff in H as [Ha Hb].
      change "" with ("" ++ "")%string. constructor; auto.
    + apply orb_true_iff in H as [Ha|Hb]; [apply MAltL | apply MAltR]; auto.
    + constructor.
  - intros H. remember "" as s eqn:Hs. induction H; simpl; try reflexivity;
      try discriminate.
    + apply append_eq_nil in Hs as [-> ->]. rewrite IHMatches1, IHMatches2; auto.
    + rewrite IHMatches; auto.
    + rewrite IHMatches; auto. apply orb_true_r.
Qed.

Lemma deriv_sound (c : ascii) (r : t) (s : string) :
  Matches (deriv c r) s -> Matches r (String c s).
Proof.
  revert s. induction r; simpl; intros s H.
  - inversion H.
  - inversion H.
  - destruct (p c) eqn:Hp; inversion H; subst. constructor; exact Hp.
  - destruct (nullable r1) eqn:Hn.
    + inversion H; subst.
      * inversion H3; subst. change (String c (s1 ++ s2)) with (String c s1 ++ s2)%string.
        constructor; auto.
      * change (String c s) with ("" ++ String c s)%string.
        constructor; [apply nullable_spec; exact Hn | auto].
    + inversion H; subst. change (String c (s1 ++ s2)) with (String c s1 ++ s2)%string.
      constructor; auto.
  - inversion H; subst; [apply MAltL | apply MAltR]; auto.
  - inversion H; subst. change (String c (s1 ++ s2)) with (String c s1 ++ s2)%string.
    constructor; auto.
Qed.

Lemma deriv_complete (c : ascii) (r : t) (s0 : string) :
  Matches r s0 -> forall rest, s0 = String c rest -> Matches (deriv c r) rest.
Proof.
  induction 1; intros rest Hs; simpl.
  - discriminate.
  - injection Hs as -> <-. rewrite H. constructor.
  - apply append_eq_cons in Hs as [[-> ->] | (a' & -> & ->)].
    + assert (Hn : nullable a = true) by (apply nullable_spec; assumption).
      rewrite Hn. apply MAltR. apply IHMatches2. reflexivity.
    + destruct (nullable a).
      * apply MAltL. constructor; auto.
      * constructor; auto.
  - apply MAltL. auto.
  - apply MAltR. auto.
  - discriminate.
  - apply append_eq_cons in Hs as [[-> ->] | (a' & -> & ->)].
    + apply IHMatches2. reflexivity.
    + constructor; auto.
Qed.

Lemma test_spec (r : t) (s : string) : test r s = true <-> Matches r s.
Proof.
  revert r. induction s as [|c s IH]; intros r; simpl.
  - apply nullable_spec.
  - rewrite IH. split; [apply deriv_sound | intros H; eapply deriv_complete; eauto].
Qed.

Lemma Matches_class (p : ascii -> bool) (s : string) :
  Matches (Class p) s -> exists c, s = String c "" /\ p c = true.
Proof. intros H. inversion H; subst. eauto. Qed.

Lemma Matches_seq (a b : Regex.t) (s : string) :
  Matches (Seq a b) s ->
  exists s1 s2, s = (s1 ++ s2)%string /\ Matches a s1 /\ Matches b s2.
Proof. intros H. inversion H; subst. eauto. Qed.

Lemma star_class (p : ascii -> bool) (s : string) :
  Matches (Star (Class p)) s <-> allChars p s = true.
Proof.
  split.
  - intros H. remember (Star (Class p)) as r eqn:Hr.
    induction H as [| | | | | |a s1 s2 H1 _ _ IH]; try discriminate; [reflexivity|].
    injection Hr as ->. apply Matches_class in H1 as (c & -> & Hc). simpl.
    rewrite Hc. apply IH. reflexivity.
  - induction s as [|c s IH]; simpl; intros H; [constructor|].
    apply andb_true_iff in H as [Hc Hs].
    change (String c s) with (String c "" ++ s)%string.
    constructor; [constructor; exact Hc | exact (IH Hs)].
Qed.

Lemma plus_class (p : ascii -> bool) (s : string) :
  Matches (Plus (Class p)) s <-> s <> "" /\ allChars p s = true.
Proof.
  unfold Plus. split.
  - intros H. apply Matches_seq in H as (s1 & s2 & -> & H1 & H2).
    apply Matches_class in H1 as (c & -> & Hc). simpl. split; [discriminate|].
    rewrite Hc. apply star_class. exact H2.
  - intros [Hne H]. destruct s as [|c s]; [contradiction|]. simpl in H.
    apply andb_true_iff in H as [Hc Hs].
    change (String c s) with (String c "" ++ s)%string.
    constructor; [constructor; exact Hc | apply star_class; exact Hs].
Qed.

Lemma star_spaced (s : string) :
  Matches (Star (Seq (Chr " ") (Plus (Class notWhitespace)))) s
  <-> exists ws, Forall isWord ws /\ s = spaced ws.
Proof.
  split.
  - intros H. remember (Star (Seq (Chr " ") (Plus (Class notWhitespace)))) as r eqn:Hr.
    induction H as [| | | | | |a s1 s2 H1 _ _ IH]; try discriminate.
    + exists []. split; [constructor | reflexivity].
    + injection Hr as ->. destruct (IH eq_refl) as (ws & Hws & ->).
      apply Matches_seq in H1 as (x & w & -> & Hx & Hw).
      apply Matches_class in Hx as (c & -> & Hc).
      apply Ascii.eqb_eq in Hc. subst c.
      apply plus_class in Hw.
      exists (w :: ws). split; [constructor; assumption|].
      reflexivity.
  - intros (ws & Hws & ->). induction Hws as [|w ws Hw _ IH]; simpl; [constructor|].
    change (String " " (w ++ spaced ws)) with (String " " w ++ spaced ws)%string.
    constructor; [|exact IH].
    change (String " " w) with (String " " "" ++ w)%string.
    constructor; [constructor; reflexivity | apply plus_class; exact Hw].
Qed.

Lemma concat_spaced (w : string) (ws : list string) :
  (w ++ spaced ws)%string = String.concat " " (w :: ws).
Proof.
  revert w. induction ws as [|w' ws IH]; intros w.
  - simpl. apply append_nil_r.
  - change (spaced (w' :: ws)) with (" " ++ (w' ++ spaced ws))%string.
    rewrite IH. reflexivity.
Qed.

Lemma namePattern_spec (s : string) :
  test namePattern s = true <-> isSpacedWords s.
Proof.
  rewrite test_spec. unfold namePattern, isSpacedWords. split.
  - intros H. apply Matches_seq in H as (w & r & -> & Hw & Hr).
    apply plus_class in Hw. apply star_spaced in Hr as (ws & Hws & ->).
    exists w, ws. split; [constructor; assumption | apply concat_spaced].
  - intros (w & ws & Hall & ->). inversion Hall; subst.
    rewrite <- concat_spaced.
    constructor; [apply plus_class; assumption | apply star_spaced; eauto].
Qed.

Lemma isSpacedWords_not_empty (s : string) : isSpacedWords s -> 1 <= String.length s.
Proof.
  intros (w & ws & Hall & ->). inversion Hall as [|? ? [Hne _] _]; subst.
  rewrite <- concat_spaced, string_length_append.
  destruct w; [contradiction | simpl; lia].
Qed.

End NamePattern.

(** ** Bodies of update and create *)

Section ItemBodies.

Import Json S ItemValidation.

Lemma name_schema_spec (j : Json.t) :
  validate (string |> minLength 1 |> pattern namePattern) j = true
  <-> exists s, j = Str s /\ isSpacedWords s.
Proof.
  unfold validate, pattern, minLength, withKeyword, string. cbn [holds closed negb orb].
  rewrite andb_true_r.
  destruct j as [| | |s| |]; cbn [andb];
    try (split; [discriminate | intros (s' & H & _); discriminate]).
  split.
  - intros H. apply andb_true_iff in H as [_ H]. apply namePattern_spec in H. eauto.
  - intros (s' & H & Hs). injection H as <-. apply andb_true_iff. split.
    + apply Nat.leb_le. apply isSpacedWords_not_empty. exact Hs.
    + apply namePattern_spec. exact Hs.
Qed.

Lemma text_schema_spec (j : Json.t) :
  validate string j = true <-> exists s, j = Str s /\ True.
Proof.
  unfold validate, string. cbn [holds closed negb orb]. rewrite andb_true_r.
  destruct j; split; try discriminate; try (intros (s' & H & _); discriminate); eauto.
Qed.

Lemma declared_keys (ks : list String.string) (fields : list (String.string * Json.t)) :
  forallb (fun kv => existsb (String.eqb (fst kv)) ks) fields = true
  <-> Forall (fun kv => In (fst kv) ks) fields.
Proof.
  rewrite forallb_forall, Forall_forall. split; intros H kv Hin.
  - apply H in Hin. apply existsb_exists in Hin as (k & Hk & Heq).
    apply String.eqb_eq in Heq. congruence.
  - apply existsb_exists. exists (fst kv). split; [auto | apply String.eqb_refl].
Qed.

Lemma prop_spec (k : String.string) (sk : Schema) (P : String.string -> Prop)
      (fields : list (String.string * Json.t)) :
  (forall v, validate sk v = true <-> exists s, v = Str s /\ P s) ->
  match lookup k fields with Some v => validate sk v | None => true end = true
  <-> textIfPresent k P fields.
Proof.
  intros Hsk. unfold textIfPresent. destruct (lookup k fields) as [v|].
  - apply Hsk.
  - tauto.
Qed.

Lemma has_spec (k : String.string) (fields : list (String.string * Json.t)) :
  match lookup k fields with Some _ => true | None => false end = true
  <-> present k fields.
Proof.
  unfold present. destruct (lookup k fields) as [v|].
  - split; eauto.
  - split; [discriminate | intros [v H]; discriminate].
Qed.

(** X5.  The body of an update, read as a JSON schema: it is accepted exactly
    when it is an object with no other properties than [name] and
    [description], at least one of the two, where a name is one word or more
    joined by single spaces (a word has no whitespace; no space leads or
    trails) and a description is a text. *)
Theorem update_body_is_a_name_or_a_description (j : Json.t) :
  validate partialItemRequireOne j = true
  <-> exists fields,
        j = Obj fields
        /\ Forall (fun kv => In (fst kv) ["description"; "name"]) fields
        /\ textIfPresent "name" isSpacedWords fields
        /\ textIfPresent "description" (fun _ => True) fields
        /\ (present "name" fields \/ present "description" fields).
Proof.
  destruct j as [| | | | |fields];
    try (split; [discriminate | intros (f & H & _); discriminate]).
  unfold partialItemRequireOne, requiredOnly, withAnyOf, required, withKeyword,
    additionalProperties, object, raw.
  unfold validate at 1. cbn [holds closed declared prop negb orb andb].
  set (nameOk := match lookup "name" fields with Some v => validate _ v | None => true end).
  set (descriptionOk :=
         match lookup "description" fields with Some v => validate _ v | None => true end).
  set (keysOk := forallb _ fields).
  cbn [existsb]. unfold validate. cbn [holds closed negb orb andb forallb].
  rewrite !andb_true_r, orb_false_r.
  rewrite !andb_true_iff, orb_true_iff.
  unfold nameOk, descriptionOk, keysOk.
  rewrite (prop_spec "name" _ isSpacedWords fields name_schema_spec).
  rewrite (prop_spec "description" _ (fun _ => True) fields text_schema_spec).
  rewrite !has_spec, declared_keys.
  split.
  - intros [[[Hn Hd] Hone] Hkeys]. exists fields. tauto.
  - intros (f & Heq & Hkeys & Hn & Hd & Hone). injection Heq as <-. tauto.
Qed.

Lemma const_spec (c : String.string) (v : Json.t) :
  validate (const c) v = true <-> v = Str c.
Proof.
  unfold validate, const. cbn [holds closed negb orb]. rewrite andb_true_r.
  destruct v as [| | |s| |]; try (split; discriminate).
  rewrite String.eqb_eq. split; [intros ->; reflexivity | intros H; injection H; auto].
Qed.

Lemma empty_object_spec (v : Json.t) :
  validate (mkSchema [] true (fun j => match j with Obj _ => true | _ => false end)) v
  = true <-> v = Obj [].
Proof.
  unfold validate. cbn [holds closed declared negb orb].
  destruct v as [| | | | |[|kv rest]]; simpl; split; intros H;
    try discriminate H; reflexivity.
Qed.

Lemma value_spec (k : String.string) (sk : Schema) (Q : Json.t -> Prop)
      (fields : list (String.string * Json.t)) :
  (forall v, validate sk v = true <-> Q v) ->
  match lookup k fields with Some v => validate sk v | None => true end = true
  <-> match lookup k fields with Some v => Q v | None => True end.
Proof.
  intros Hsk. destruct (lookup k fields) as [v|]; [apply Hsk | tauto].
Qed.

(** X6.  The body of a create, read as a JSON schema: it is accepted by
    [partialItem] exactly when it is an object with no other properties than
    [name], [description], [type] and [extra], whose name is one word or more
    joined by single spaces, whose description, if any, is a text, whose type
    is the text [base] and whose [extra] is the empty object. *)
Theorem create_body_is_a_named_base_item (j : Json.t) :
  validate partialItem j = true
  <-> exists fields name,
        j = Obj fields
        /\ Forall (fun kv => In (fst kv) ["extra"; "type"; "description"; "name"]) fields
        /\ lookup "name" fields = Some (Str name) /\ isSpacedWords name
        /\ textIfPresent "description" (fun _ => True) fields
        /\ lookup "type" fields = Some (Str "base")
        /\ lookup "extra" fields = Some (Obj []).
Proof.
  destruct j as [| | | | |fields];
    try (split; [discriminate | intros (f & nm & H & _); discriminate]).
  unfold partialItem, required, withKeyword, additionalProperties, object.
  unfold validate at 1. cbn [holds closed declared prop negb orb andb].
  set (descriptionOk :=
         match lookup "description" fields with Some v => validate _ v | None => true end).
  set (keysOk := forallb _ fields).
  cbn [forallb]. rewrite !andb_true_r. rewrite !andb_true_iff.
  unfold descriptionOk, keysOk. clear descriptionOk keysOk.
  rewrite (prop_spec "description" _ (fun _ => True) fields text_schema_spec).
  rewrite declared_keys.
  rewrite (value_spec "name" _ _ fields name_schema_spec).
  rewrite (value_spec "type" _ _ fields (const_spec "base")).
  rewrite (value_spec "extra" _ _ fields empty_object_spec).
  destruct (lookup "name" fields) as [n|] eqn:Hln;
    destruct (lookup "type" fields) as [t|] eqn:Hlt;
    destruct (lookup "extra" fields) as [e|] eqn:Hle;
    (split;
     [ intros [[[[[Hn Hd] Ht] He] (H1 & H2 & H3)] Hkeys]; try discriminate
     | intros (f & m & Heq & Hkeys & Hn & Hwords & Hd & Ht & He);
       injection Heq as <-; try congruence ]).
  - destruct Hn as (s0 & -> & Hs). subst t e.
    exists fields, s0. tauto.
  - rewrite Hln in Hn. rewrite Hlt in Ht. rewrite Hle in He.
    injection Hn as ->. injection Ht as ->. injection He as ->.
    split; [|exact Hkeys]. split; [|tauto].
    split; [|reflexivity]. split; [|reflexivity]. split; [eauto | exact Hd].
Qed.

(** X7.  [create] takes the schemas of other item types and accepts a body
    that exactly one schema accepts: a body that fits [partialItem] passes
    exactly when none of the other schemas accepts it too. *)
Theorem create_accepts_a_base_item_no_other_schema_accepts
  (uuid : Schema) (otherItemSchemas : list Schema) (j : Json.t) :
  validate partialItem j = true ->
  accepts (body (create uuid otherItemSchemas)) j
  = forallb (fun s => negb (validate s j)) otherItemSchemas.
Proof.
  intros Hbase. cbn [body create accepts]. unfold validate at 1, oneOf.
  cbn [holds closed negb orb filter]. rewrite Hbase, andb_true_r.
  cbn [length]. induction otherItemSchemas as [|s rest IH]; [reflexivity|].
  cbn [filter forallb]. destruct (validate s j); cbn [negb andb length].
  - reflexivity.
  - exact IH.
Qed.

(** X8.  Reading and updating many items have each their own limit: for a
    querystring that the shared [idsQuery] schema accepts, [getMany] accepts the
    list of identifiers exactly when it has at most
    [MAX_TARGETS_FOR_READ_REQUEST] entries, and [updateMany] exactly when it has
    at most [MAX_TARGETS_FOR_MODIFY_REQUEST]. *)
Theorem read_and_update_have_their_own_size_limits
  (maxModify maxRead : nat) (uuid idsQuery error : Schema)
  (fields : list (String.string * Json.t)) (l : list Json.t) :
  lookup "id" fields = Some (Arr l) ->
  validate idsQuery (Obj fields) = true ->
  (accepts (querystring (getMany maxRead uuid idsQuery error)) (Obj fields) = true
   <-> length l <= maxRead)
  /\ (accepts (querystring (updateMany maxModify uuid idsQuery error)) (Obj fields) = true
      <-> length l <= maxModify).
Proof.
  intros Hid Hbase.
  assert (Hlimit : forall n,
             validate (FluentSchema.idsQuerystring n idsQuery) (Obj fields) = true
             <-> length l <= n).
  { intros n. split.
    - intros Hok. destruct (Nat.le_gt_cases (length l) n) as [Hle|Hgt]; [exact Hle|].
      rewrite (idsQuerystring_too_long n idsQuery fields l Hid Hgt) in Hok.
      discriminate.
    - intros Hle. exact (idsQuerystring_within n idsQuery fields l Hid Hle Hbase). }
  split; [exact (Hlimit maxRead) | exact (Hlimit maxModify)].
Qed.

End ItemBodies.

(** ** The file service *)

Section FileServiceProperties.

Import FileRepository(RepoCall, GetFileSize, UploadFile, GetFile, GetUrl, DeleteFile,
                      DeleteFolder, CopyFile, CopyFolder).
Import FileService.

Context {Fs E Stream Content : Type} {repository : FileRepository.t Fs E Stream Content}.

Lemma isEmpty_spec (s : string) : isEmpty s = String.eqb s "".
Proof. destruct s; reflexivity. Qed.

Lemma raise_sendsOnly {A : Type} (test : RepoCall -> bool) (e : @FileError E Stream) :
  sendsOnly test (@raise Fs E Stream A e).
Proof. intros st. exists []. simpl. rewrite app_nil_r. split; reflexivity. Qed.

Lemma send_sendsOnly {A : Type} (test : RepoCall -> bool) (c : RepoCall)
      (f : Fs -> (E + A) * Fs) :
  test c = true -> sendsOnly test (@send Fs E Stream A c f).
Proof.
  intros Hc st. exists [c]. unfold send. destruct (f (fs st)) as [r fs'].
  simpl. rewrite Hc. split; reflexivity.
Qed.

Lemma ask_sendsOnly {A : Type} (test : RepoCall -> bool) (c : RepoCall)
      (f : Fs -> E + A) :
  test c = true -> sendsOnly test (@ask Fs E Stream A c f).
Proof.
  intros Hc st. exists [c]. unfold ask. simpl. rewrite Hc. split; reflexivity.
Qed.

(** X9.  [upload], [getFile], [getUrl], [delete], [deleteFolder], [copy] and
    [copyFolder] never hand the repository an empty file or folder path,
    whatever their arguments (the deletion that rolls a failed upload back
    included), and [getFile] and [getUrl] never an empty [id].  The other
    identifiers are handed on unchecked: [copy] sends the [newId] and the
    member's id as they are, and [upload] the member's id, even when they are
    empty.  [getFileSize] checks nothing: it asks the repository for the size
    at the empty path. *)
Theorem file_service_never_sends_an_empty_path (member : Member) :
  (forall data, sendsOnly namesPaths (upload member data))
  /\ (forall id path, sendsOnly namesPathsAndIdentifiers (getFile member id path))
  /\ (forall expiration id path,
         sendsOnly namesPathsAndIdentifiers (getUrl expiration id path))
  /\ (forall path, sendsOnly namesPaths (delete member path))
  /\ (forall folderPath, sendsOnly namesPaths (deleteFolder member folderPath))
  /\ (forall data, sendsOnly namesPaths (copy member data))
  /\ (forall original new, sendsOnly namesPaths (copyFolder member original new))
  /\ (forall data st,
         originalPath data <> "" -> newFilePath data <> "" ->
         repoCalls (snd (copy member data st))
         = repoCalls st ++ [CopyFile (newId data) (memberIdOf member) (originalPath data)
                                     (newFilePath data) (copyMimetype data)])
  /\ (forall stream path mimetype st,
         path <> "" ->
         exists rest,
           repoCalls (snd (upload member (mkUploadData (Some stream) path mimetype) st))
           = repoCalls st ++ UploadFile path (memberIdOf member) mimetype :: rest)
  /\ (forall st, repoCalls (snd (getFileSize member "" st))
                 = repoCalls st ++ [GetFileSize ""]).
Proof.
  assert (Hdelete : forall path, sendsOnly namesPaths (delete member path)).
  { intros path. unfold delete. rewrite isEmpty_spec.
    destruct (String.eqb path "") eqn:Hp; [apply raise_sendsOnly|].
    apply send_sendsOnly. unfold namesPaths, noneEmpty. simpl. rewrite Hp. reflexivity. }
  split; [|split; [|split; [|split; [|split; [|split; [|split; [|split; [|split]]]]]]]].
  - intros data. unfold upload. destruct (file data) as [stream|];
      [|apply raise_sendsOnly].
    simpl. destruct (String.eqb (filepath data) "") eqn:Hp; simpl;
      [apply raise_sendsOnly|].
    intros st.
    destruct (send_sendsOnly namesPaths
                (UploadFile (filepath data) (memberIdOf member) (mimetype data))
                (FileRepository.uploadFile stream (filepath data) (memberIdOf member)
                                           (mimetype data))
                ltac:(unfold namesPaths, noneEmpty; simpl; rewrite Hp; reflexivity) st)
      as (new1 & Hcalls1 & Hnew1).
    destruct (send _ _ st) as [[e|u] st1]; simpl in Hcalls1 |- *.
    + destruct (Hdelete (filepath data) st1) as (new2 & Hcalls2 & Hnew2).
      exists (new1 ++ new2). unfold logError. simpl.
      rewrite Hcalls2, Hcalls1, <- app_assoc. split; [reflexivity|].
      rewrite forallb_app, Hnew1, Hnew2. reflexivity.
    + exists new1. split; assumption.
  - intros id path. unfold getFile.
    destruct path as [p|]; [|apply raise_sendsOnly].
    destruct id as [i|]; simpl;
      [|rewrite orb_true_r; apply raise_sendsOnly].
    destruct (String.eqb p "") eqn:Hp; simpl; [apply raise_sendsOnly|].
    destruct (String.eqb i "") eqn:Hi; simpl; [apply raise_sendsOnly|].
    apply ask_sendsOnly. unfold namesPathsAndIdentifiers, noneEmpty. simpl.
    rewrite Hp, Hi. reflexivity.
  - intros expiration id path. unfold getUrl.
    destruct path as [p|]; [|apply raise_sendsOnly].
    destruct id as [i|]; simpl;
      [|rewrite orb_true_r; apply raise_sendsOnly].
    destruct (String.eqb p "") eqn:Hp; simpl; [apply raise_sendsOnly|].
    destruct (String.eqb i "") eqn:Hi; simpl; [apply raise_sendsOnly|].
    apply ask_sendsOnly. unfold namesPathsAndIdentifiers, noneEmpty. simpl.
    rewrite Hp, Hi. reflexivity.
  - exact Hdelete.
  - intros folderPath. unfold deleteFolder. rewrite isEmpty_spec.
    destruct (String.eqb folderPath "") eqn:Hp; [apply raise_sendsOnly|].
    apply send_sendsOnly. unfold namesPaths, noneEmpty. simpl. rewrite Hp. reflexivity.
  - intros data. unfold copy. rewrite !isEmpty_spec.
    destruct (String.eqb (originalPath data) "") eqn:Ho; [apply raise_sendsOnly|].
    destruct (String.eqb (newFilePath data) "") eqn:Hn; [apply raise_sendsOnly|].
    apply send_sendsOnly. unfold namesPaths, noneEmpty. simpl. rewrite Ho, Hn.
    reflexivity.
  - intros original new. unfold copyFolder. rewrite !isEmpty_spec.
    destruct (String.eqb original "") eqn:Ho; [apply raise_sendsOnly|].
    destruct (String.eqb new "") eqn:Hn; [apply raise_sendsOnly|].
    apply send_sendsOnly. unfold namesPaths, noneEmpty. simpl. rewrite Ho, Hn.
    reflexivity.
  - intros data st Ho Hn. unfold copy. rewrite !isEmpty_spec.
    apply String.eqb_neq in Ho, Hn. rewrite Ho, Hn.
    unfold send. destruct (FileRepository.copyFile _ _ _ _ _ (fs st)) as [r fs'].
    reflexivity.
  - intros stream path mimetype st Hp. unfold upload. cbn [file filepath FileService.mimetype].
    apply String.eqb_neq in Hp.
    assert (Ht : truthy (Some path) = true) by (unfold truthy; rewrite Hp; reflexivity).
    rewrite Ht. unfold send.
    destruct (FileRepository.uploadFile stream path (memberIdOf member) mimetype (fs st))
      as [[e|u] fs'].
    + simpl. unfold delete. rewrite isEmpty_spec, Hp. unfold send. simpl.
      destruct (FileRepository.deleteFile path fs') as [r fs2]. simpl.
      eexists. rewrite <- app_assoc. reflexivity.
    + simpl. exists []. reflexivity.
  - intros st. reflexivity.
Qed.

(** X10.  When the repository refuses an upload, the service asks it to delete
    the file at the same path, gives the error of the repository to the logger
    and throws [UploadFileUnexpectedError] with the mimetype and the member in
    its place; whether the deletion succeeds changes nothing of that. *)
Theorem failed_upload_is_rolled_back
  (member : Member) (stream : Stream) (path : string) (mimetype : option string)
  (st : State) (e : E) (fs1 : Fs) :
  path <> "" ->
  FileRepository.uploadFile stream path (memberIdOf member) mimetype (fs st)
  = (inl e, fs1) ->
  let result := upload member (mkUploadData (Some stream) path mimetype) st in
  fst result = inl (UploadFileUnexpectedError mimetype (memberIdOf member))
  /\ repoCalls (snd result)
     = repoCalls st ++ [UploadFile path (memberIdOf member) mimetype; DeleteFile path]
  /\ logged (snd result) = logged st ++ [RepositoryError e].
Proof.
  intros Hpath Hupload result. apply String.eqb_neq in Hpath.
  assert (Hresult :
    result
    = (inl (UploadFileUnexpectedError mimetype (memberIdOf member)),
       mkState (snd (FileRepository.deleteFile path fs1))
               (repoCalls st
                  ++ [UploadFile path (memberIdOf member) mimetype; DeleteFile path])
               (logged st ++ [RepositoryError e]))).
  { unfold result, upload. cbn [file filepath FileService.mimetype truthy].
    rewrite Hpath. cbn [negb]. unfold send at 1. rewrite Hupload. cbn [rethrow].
    unfold delete. rewrite isEmpty_spec, Hpath.
    unfold send. cbn [fs repoCalls logged].
    destruct (FileRepository.deleteFile path fs1) as [r fs2].
    unfold logError. cbn. rewrite <- app_assoc. reflexivity. }
  rewrite Hresult. repeat split.
Qed.

End FileServiceProperties.

(** ** The password routes *)

Section PasswordRoutes.

Import Password PasswordReset.

Context {Db E Mem : Type}.
Variable createResetPasswordRequest : Db -> string -> E + option (string * Mem).
Variable lang : Mem -> string.
Variable getByEmail : Db -> string -> option Member.
Variable validate : string -> Db -> E + Db.
Variable post : Member -> Db -> string -> E + Db.

Local Abbreviation reset := (postPasswordReset createResetPasswordRequest lang).

(** X11.  [POST /password/reset] tells the client nothing about the email: the
    reply is status 204, sent before the service looks the email up, and nothing
    is added to it afterwards, so the reply is the same for every email and
    every state of the repositories.  The mail goes out exactly when the
    service created a request, with that token and the language of the
    member. *)
Theorem reset_reply_is_the_same_for_every_email
  (email : string) (repositories : Db) :
  (exists later,
      snd (reset email repositories)
      = [ReplyStatus StatusCodes.NO_CONTENT; ReplySend; CreateResetPasswordRequest email]
          ++ later
      /\ filter isReply later = [])
  /\ (forall email' repositories',
         filter isReply (snd (reset email repositories))
         = filter isReply (snd (reset email' repositories')))
  /\ (forall token l,
         In (MailResetPasswordRequest email token l) (snd (reset email repositories))
         <-> exists member,
               createResetPasswordRequest repositories email = inr (Some (token, member))
               /\ l = lang member).
Proof.
  assert (Hreply : forall em d,
             filter isReply (snd (reset em d))
             = [ReplyStatus StatusCodes.NO_CONTENT; ReplySend]).
  { intros em d. unfold postPasswordReset.
    destruct (createResetPasswordRequest d em) as [e|[[token member]|]]; reflexivity. }
  split; [|split].
  - unfold postPasswordReset.
    destruct (createResetPasswordRequest repositories email) as [e|[[token member]|]].
    + exists []. split; reflexivity.
    + exists [MailResetPasswordRequest email token (lang member);
              PostAction member AskResetPassword].
      split; reflexivity.
    + exists []. split; reflexivity.
  - intros email' repositories'. rewrite !Hreply. reflexivity.
  - intros token l. unfold postPasswordReset.
    destruct (createResetPasswordRequest repositories email) as [e|[[token' member]|]];
      simpl; split.
    + intros [H|[H|[H|[]]]]; discriminate.
    + intros (m & H & _). discriminate.
    + intros [H|[H|[H|[H|[H|[]]]]]]; try discriminate.
      injection H as <- <-. exists member. split; reflexivity.
    + intros (m & H & ->). injection H as <- <-. auto.
    + intros [H|[H|[H|[]]]]; discriminate.
    + intros (m & H & _). discriminate.
Qed.

(** X12.  [POST /password/nouser] fails only for an email that has a member,
    when validating the member or setting the password throws; the transaction
    then leaves the database as it was before the request (a validation that
    was already written is undone) and the handler has set no status. *)
Theorem nouser_failure_leaves_no_trace
  (email password : string) (d : Db) (r : Reply) (e : E) :
  fst (fst (postPasswordNoUser getByEmail validate post email password d r)) = inl e ->
  snd (fst (postPasswordNoUser getByEmail validate post email password d r)) = d
  /\ snd (postPasswordNoUser getByEmail validate post email password d r) = r
  /\ exists m,
      getByEmail d email = Some m
      /\ (validate (memberIdOf m) d = inl e
          \/ exists d1, validate (memberIdOf m) d = inr d1 /\ post m d1 password = inl e).
Proof.
  unfold postPasswordNoUser, transaction, memberBranch.
  destruct (getByEmail d email) as [m|]; [|discriminate].
  destruct (validate (memberIdOf m) d) as [e1|d1] eqn:Hv; simpl.
  - intros H. injection H as ->. repeat split. exists m. auto.
  - destruct (post m d1 password) as [e2|d2] eqn:Hp; simpl; [|discriminate].
    intros H. injection H as ->. repeat split. exists m. split; [reflexivity|].
    right. exists d1. auto.
Qed.

End PasswordRoutes.

(** ** Instances *)

Section FurtherInstances.

Import Store Planner Fixtures Samples Json S ItemValidation.

Local Abbreviation runOn s target parent :=
  (run MAX_DESCENDANTS_FOR_MOVE MAX_TREE_LEVELS actor target parent
       (mkWorld s [] NEW None)).

(** An instance of [failed_move_has_only_read]: the move of a folder with
    sixteen descendants is refused after three queries. *)
Lemma failed_move_has_only_read_witness :
  let w := mkWorld largeFolder [] NEW None in
  let result :=
    run MAX_DESCENDANTS_FOR_MOVE MAX_TREE_LEVELS actor "item" (Some "other") w in
  fst result = inl (TooManyDescendants "item")
  /\ db (snd result) = db w
  /\ status (snd result) = RUNNING.
Proof.
  intros w result.
  assert (Hfail : fst result = inl (TooManyDescendants "item")) by reflexivity.
  destruct (failed_move_has_only_read
              MAX_DESCENDANTS_FOR_MOVE MAX_TREE_LEVELS actor "item" (Some "other")
              w (TooManyDescendants "item") Hfail)
    as (Hdb & Hstatus & _).
  split; [exact Hfail|]. split; [exact Hdb | exact Hstatus].
Defined.

(** An instance of [raising_the_limits_keeps_a_move]: the move of the second
    root under the first succeeds with limits of one descendant and two
    levels, and so with the sample limits. *)
Lemma raising_the_limits_keeps_a_move_witness :
  let w := mkWorld (snd twoRoots) [] NEW None in
  fst (run 1 2 actor "item" (Some "parent") w) = inr tt
  /\ run MAX_DESCENDANTS_FOR_MOVE MAX_TREE_LEVELS actor "item" (Some "parent") w
     = run 1 2 actor "item" (Some "parent") w.
Proof.
  intros w.
  assert (Hok : fst (run 1 2 actor "item" (Some "parent") w) = inr tt) by reflexivity.
  split; [exact Hok|].
  apply (raising_the_limits_keeps_a_move
           actor "item" (Some "parent") 1 MAX_DESCENDANTS_FOR_MOVE 2 MAX_TREE_LEVELS w);
    [unfold MAX_DESCENDANTS_FOR_MOVE; lia | unfold MAX_TREE_LEVELS; lia | exact Hok].
Defined.

(** An instance of [destination_with_extending_path_text_is_refused]: the
    folder [item] cannot be moved into the folder [item2] beside it. *)
Lemma destination_with_extending_path_text_is_refused_witness :
  let item := mkItem "item" "item" "folder" ["item"] "actor" in
  let other := mkItem "item2" "item2" "folder" ["item2"] "actor" in
  Path.isPrefix (path item) (path other) = false
  /\ getItem "item" extendingSibling = Some item
  /\ getItem "item2" extendingSibling = Some other
  /\ fst (runOn extendingSibling "item" (Some "item2"))
     = inl (InvalidMoveTarget (Some "item2")).
Proof.
  intros item other.
  split; [reflexivity|]. split; [reflexivity|]. split; [reflexivity|].
  apply (destination_with_extending_path_text_is_refused
           (IS := Store.itemService) (IMS := Store.itemMembershipService)
           MAX_DESCENDANTS_FOR_MOVE MAX_TREE_LEVELS actor "item" (Some "item2")
           (mkWorld extendingSibling [] NEW None) item other "item2" "2").
  - reflexivity.
  - reflexivity.
  - vm_compute. lia.
  - reflexivity.
  - discriminate.
  - reflexivity.
  - reflexivity.
Defined.

(** An instance of [create_accepts_a_base_item_no_other_schema_accepts]: a base
    item is accepted by [create()], and refused once a second schema that
    accepts it is registered. *)
Lemma create_accepts_a_base_item_no_other_schema_accepts_witness :
  let j := Obj [("name", Str "my folder"); ("type", Str "base"); ("extra", Obj [])] in
  validate partialItem j = true
  /\ validate (oneOf [partialItem]) j = true
  /\ validate (oneOf [partialItem; object]) j = false.
Proof.
  intros j.
  assert (Hbase : validate partialItem j = true) by (vm_compute; reflexivity).
  split; [exact Hbase|]. split.
  - exact (create_accepts_a_base_item_no_other_schema_accepts Fixtures.uuid [] j Hbase).
  - exact (create_accepts_a_base_item_no_other_schema_accepts
             Fixtures.uuid [object] j Hbase).
Defined.

(** An instance of [read_and_update_have_their_own_size_limits]: with a limit
    of three for reads and two for updates, three identifiers can be read and
    not updated. *)
Lemma read_and_update_have_their_own_size_limits_witness :
  let q := Obj [("id", strings ["a"; "b"; "c"])] in
  accepts (querystring (getMany 3 Fixtures.uuid Fixtures.idsQuery Fixtures.error)) q = true
  /\ accepts (querystring (updateMany 2 Fixtures.uuid Fixtures.idsQuery Fixtures.error)) q
     = false.
Proof.
  intros q.
  destruct (read_and_update_have_their_own_size_limits
              2 3 Fixtures.uuid Fixtures.idsQuery Fixtures.error
              [("id", strings ["a"; "b"; "c"])] (map Str ["a"; "b"; "c"])
              eq_refl eq_refl)
    as [Hread Hupdate].
  split.
  - apply Hread. simpl. lia.
  - destruct (accepts _ q) eqn:Hq; [|reflexivity].
    apply Hupdate in Hq. simpl in Hq. lia.
Defined.

(** An instance of [failed_upload_is_rolled_back]: the repository refuses to
    write over [a.txt]; the service deletes the file and reports the failed
    upload. *)
Lemma failed_upload_is_rolled_back_witness :
  let st := FileService.mkState (E := String.string) (Stream := unit) ["a.txt"] [] [] in
  let result :=
    FileService.upload (repository := pathsRepository) (mkMember "ann")
                       (FileService.mkUploadData (Some tt) "a.txt" None) st in
  fst result = inl (FileService.UploadFileUnexpectedError None "ann")
  /\ FileService.repoCalls (snd result)
     = [FileRepository.UploadFile "a.txt" "ann" None; FileRepository.DeleteFile "a.txt"].
Proof.
  intros st result.
  destruct (failed_upload_is_rolled_back
              (repository := pathsRepository) (mkMember "ann") tt "a.txt" None st
              "exists" ["a.txt"] ltac:(discriminate) eq_refl)
    as (Hresult & Hcalls & _).
  split; [exact Hresult | exact Hcalls].
Defined.

(** An instance of [file_service_never_sends_an_empty_path]: the copy of
    [a.txt] with an empty [newId], by a member whose id is empty, reaches the
    repository with both; its paths are named, its identifiers are not. *)
Lemma file_service_never_sends_an_empty_path_witness :
  let st := FileService.mkState (E := String.string) (Stream := unit) ["a.txt"] [] [] in
  let data := FileService.mkCopyData (Some "") "b.txt" "a.txt" None in
  let call := FileRepository.CopyFile (Some "") "" "a.txt" "b.txt" None in
  (FileService.originalPath data <> "" /\ FileService.newFilePath data <> "")
  /\ FileService.repoCalls
       (snd (FileService.copy (repository := pathsRepository) (mkMember "") data st))
     = [call]
  /\ FileService.namesPaths call = true
  /\ FileService.namesPathsAndIdentifiers call = false.
Proof.
  intros st data call.
  assert (Ho : FileService.originalPath data <> "") by discriminate.
  assert (Hn : FileService.newFilePath data <> "") by discriminate.
  destruct (file_service_never_sends_an_empty_path
              (repository := pathsRepository) (Stream := unit) (mkMember ""))
    as (_ & _ & _ & _ & _ & _ & _ & Hcopy & _).
  split; [split; assumption|].
  split; [exact (Hcopy data st Ho Hn)|].
  split; reflexivity.
Defined.

(** An instance of [nouser_failure_leaves_no_trace]: ann has a password
    already; the request fails and changes nothing. *)
Lemma nouser_failure_leaves_no_trace_witness :
  let d := [("ann@graasp.org", (mkMember "ann", Some "old"))] in
  let r := Password.mkReply Password.StatusCodes.OK [] in
  let result :=
    Password.postPasswordNoUser sampleGetByEmail sampleValidate postOnce
                                "ann@graasp.org" "new" d r in
  fst (fst result) = inl "conflict" /\ snd (fst result) = d /\ snd result = r.
Proof.
  intros d r result.
  assert (Hfail : fst (fst result) = inl "conflict") by reflexivity.
  destruct (nouser_failure_leaves_no_trace
              sampleGetByEmail sampleValidate postOnce
              "ann@graasp.org" "new" d r "conflict" Hfail)
    as (Hd & Hr & _).
  split; [exact Hfail|]. split; [exact Hd | exact Hr].
Defined.

End FurtherInstances.
